(** * tAI: the tRNA adaptation index calculator

    A shallow embedding of [biochem.py], [utils.py] and [tai.py], and the
    properties of the calculator proved on it.

    - Python strings are [string]s; the model covers ASCII text, on which
      [str.lower] changes the letters A to Z only.
    - Python exceptions are the constructors of [exn]; a function that may
      raise returns a [res].
    - Numbers (Python ints and floats, used interchangeably by the code)
      are an abstract type with the operations the code applies to them
      ([PyNum]).  The general theorems hold for every instance; the
      examples run on exact rational arithmetic ([Exact], on [Qc]) and,
      where rounding matters, on binary64 floats ([Binary64]).
    - [tGCN_dict], [w_dict] and [s_dict] are only ever read by key: they are
      finite maps.  Dictionaries that the code iterates over (the counts a
      caller passes in, the local [W_dict] and [w_dict] of [set_w_dict]) are
      association lists in insertion order. *)

From Stdlib Require Import Ascii String QArith Qcanon Floats Uint63.
From stdpp Require Import gmap strings list fin_maps.


(** ** Exceptions and results *)

Inductive exn : Set :=
| KeyError
| ValueError
| TypeError
| IndexError
| ZeroDivisionError.

Global Instance exn_eq_dec : EqDecision exn.
Proof. solve_decision. Defined.

Inductive res (A : Type) : Type :=
| Ok (a : A)
| Err (e : exn).
Global Arguments Ok {A} a.
Global Arguments Err {A} e.

Global Instance res_ret : MRet res := fun _ a => Ok a.
Global Instance res_bind : MBind res := fun _ _ f m =>
  match m with
  | Ok a => f a
  | Err e => Err e
  end.
Global Instance res_fmap : FMap res := fun _ _ f m =>
  match m with
  | Ok a => Ok (f a)
  | Err e => Err e
  end.

(** [d[k]] on a dictionary: a missing key raises [KeyError]. *)
Definition subscript {V} (d : gmap string V) (k : string) : res V :=
  match d !! k with
  | Some v => Ok v
  | None => Err KeyError
  end.

(** ** Strings *)

Module Str.

Definition lower_ascii (c : ascii) : ascii :=
  let n := nat_of_ascii c in
  if (65 <=? n)%nat && (n <=? 90)%nat then ascii_of_nat (n + 32) else c.

(** [s.lower()] *)
Definition lower (s : string) : string :=
  string_of_list_ascii (lower_ascii <$> list_ascii_of_string s).

Definition replace_ascii (a b c : ascii) : ascii :=
  if decide (c = a) then b else c.

(** [s.replace(a, b)] for one-character [a] and [b]. *)
Definition replace (a b : ascii) (s : string) : string :=
  string_of_list_ascii (replace_ascii a b <$> list_ascii_of_string s).

(** [s[::-1]] *)
Definition reverse (s : string) : string :=
  string_of_list_ascii (reverse (list_ascii_of_string s)).

(** [s[i:i+n]] *)
Definition slice (i n : nat) (s : string) : string := substring i n s.

(** [s[i]] *)
Definition index (s : string) (i : nat) : res ascii :=
  match String.get i s with
  | Some c => Ok c
  | None => Err IndexError
  end.

End Str.

(** The normalisation applied to every key and sequence:
    [k.lower().replace("u","t")]. *)
Definition normalize (s : string) : string :=
  Str.replace "u" "t" (Str.lower s).
Global Arguments normalize : simpl never.

(** ** biochem.py *)

Definition bases : list ascii := ["t"; "c"; "a"; "g"]%char.

Definition triplet (x y z : ascii) : string :=
  String x (String y (String z EmptyString)).

(** [codons = [x+y+z for x in bases for y in bases for z in bases]] *)
Definition codons : list string :=
  x ← bases; y ← bases; z ← bases; [triplet x y z].

(** [complement = {'t':'a', 'u':'a', 'a':'t', 'c':'g', 'g':'c'}] *)
Definition complement (x : ascii) : res ascii :=
  if decide (x = "t"%char) then Ok "a"%char
  else if decide (x = "u"%char) then Ok "a"%char
  else if decide (x = "a"%char) then Ok "t"%char
  else if decide (x = "c"%char) then Ok "g"%char
  else if decide (x = "g"%char) then Ok "c"%char
  else Err KeyError.

(** The loop of [rev_compl]: [rev_compl_string += complement[x]]. *)
Fixpoint complement_all (xs : list ascii) : res (list ascii) :=
  match xs with
  | [] => Ok []
  | x :: xs' =>
      y ← complement x;
      ys ← complement_all xs';
      Ok (y :: ys)
  end.

Definition rev_compl (sequence : string) (use_uracil : bool) : res string :=
  rev_compl_string ←
    string_of_list_ascii <$>
      complement_all (list_ascii_of_string (Str.lower (Str.reverse sequence)));
  if use_uracil then Ok (Str.replace "t" "u" rev_compl_string)
  else Ok rev_compl_string.

(** [[b + rev_compl(codon[:2]) for b in bases]] *)
Definition anticodons (codon : string) : res (list string) :=
  mapM (fun b => rc ← rev_compl (Str.slice 0 2 codon) false; Ok (String b rc))
       bases.

(** [range(start, stop, step)] for a positive [step]. *)
Definition range (start stop step : nat) : list nat :=
  (fun j => start + j * step)%nat <$> seq 0 ((stop - start + step - 1) / step).

Definition codons_to_remove : gset string :=
  {[ "atg"; "taa"; "tga"; "tag" ]}.

(** [get_sequence_codons]; the warning on a length that is not a multiple
    of 3 is not an exception and leaves the result unchanged. *)
Definition get_sequence_codons (seq : string) : list string :=
  let seq := normalize seq in
  let codons_list :=
    (fun i => Str.slice i 3 seq) <$> range 0 (String.length seq / 3 * 3) 3 in
  filter (fun codon => codon ∉ codons_to_remove) codons_list.

(** ** Numbers *)

(** The operations that the code applies to numbers.  [pow] is [**], [of_nat]
    turns the [len] of a list into a number, [eqb] is [==] and [gtb] the [>]
    by which [max] compares. *)
Class PyNum (R : Type) := {
  zero : R;
  one : R;
  add : R -> R -> R;
  sub : R -> R -> R;
  mul : R -> R -> R;
  div : R -> R -> R;
  pow : R -> R -> R;
  of_nat : nat -> R;
  eqb : R -> R -> bool;
  gtb : R -> R -> bool;
}.

Declare Scope num_scope.
Delimit Scope num_scope with num.
Notation "0" := zero : num_scope.
Notation "1" := one : num_scope.
Infix "+" := add : num_scope.
Infix "-" := sub : num_scope.
Infix "*" := mul : num_scope.
Infix "/" := div : num_scope.
Infix "**" := pow (at level 30, right associativity) : num_scope.
Infix "==" := eqb (at level 70, no associativity) : num_scope.
Infix ">?" := gtb (at level 70, no associativity) : num_scope.

Section Numeric.
Context {R : Type} `{PyNum R}.
Local Open Scope num_scope.

(** [w == 0] *)
Definition is_zero (w : R) : bool := w == 0.

(** [x / y]: a zero divisor raises. *)
Definition truediv (x y : R) : res R :=
  if is_zero y then Err ZeroDivisionError else Ok (x / y).

(** [max(xs)]: the first of the greatest elements. *)
Definition py_max (xs : list R) : res R :=
  match xs with
  | [] => Err ValueError
  | x :: xs' => Ok (foldl (fun m y => if y >? m then y else m) x xs')
  end.

(** *** utils.py *)

(** [reduce(lambda x,y: x*y, xs)]: no initial value, so an empty [xs]
    raises [TypeError]. *)
Definition product (xs : list R) : res R :=
  match xs with
  | [] => Err TypeError
  | x :: xs' => Ok (foldl mul x xs')
  end.

(** [(product(xs)) ** (1/len(xs))]: the product is evaluated first, and
    when it returns [len(xs)] is a positive int. *)
Definition geo_mean (xs : list R) : res R :=
  p ← product xs;
  Ok (p ** (1 / of_nat (length xs))).

(** *** biochem.load_s_dict *)

Definition pairing_keys : list string :=
  codon_base ← bases;
  anticodon_base ← (bases ++ ["i"; "l"]%char)%list;
  [String codon_base (String anticodon_base EmptyString)].

(** [rows] are the lines of the CSV file of s values, each already split
    into its pairing and the [float] of its second column. *)
Definition load_s_dict (rows : list (string * R)) : gmap string R :=
  let s_dict :=
    foldl (fun s_dict row => <[normalize row.1 := row.2]> s_dict) ∅ rows in
  foldl (fun s_dict key =>
           match s_dict !! key with
           | Some _ => s_dict
           | None => <[key := 1]> s_dict
           end)
        s_dict pairing_keys.

End Numeric.

(** ** tai.py *)

(** An instance of [TAI].  [__init__] binds both attributes to [None] and
    rebinds them through [update] before it returns, so every instance a
    caller holds has two dictionaries. *)
Record TAI (R : Type) := {
  tGCN_dict : gmap string R;
  w_dict : gmap string R;
}.
Global Arguments tGCN_dict {R} _.
Global Arguments w_dict {R} _.

Section Calculator.
Context {R : Type} `{PyNum R}.
Local Open Scope num_scope.

(** The rows of the s-value file named by the settings; [bc.s_dict] is
    loaded from them when [biochem] is imported. *)
Variable s_rows : list (string * R).

Definition s_dict : gmap string R := load_s_dict s_rows.

(** [set_tGCN_dict].  The argument is a [dict], so the type check passes;
    [items] lists it in iteration order. *)
Definition set_tGCN_dict (tRNA_counts_dict : list (string * R))
  : gmap string R :=
  let tGCN_dict :=
    foldl (fun tGCN_dict item => <[normalize item.1 := item.2]> tGCN_dict)
          ∅ tRNA_counts_dict in
  foldl (fun tGCN_dict triplet =>
           match tGCN_dict !! triplet with
           | Some _ => tGCN_dict
           | None => <[triplet := 0]> tGCN_dict
           end)
        tGCN_dict codons.

Definition get_s (codon anticodon : string) : res R :=
  acs ← anticodons codon;
  if decide (anticodon ∈ acs) then
    third_base ← Str.index codon 2;
    recognizer ← Str.index anticodon 0;
    let recognizer :=
      if decide (recognizer = "a"%char) then "i"%char else recognizer in
    let recognizer :=
      if decide ((codon, anticodon) = ("ata", "cat")) then "l"%char
      else recognizer in
    subscript s_dict (String third_base (String recognizer EmptyString))
  else Err ValueError.

(** Monadic left fold: a [for] loop that threads an accumulator and stops
    at the first exception. *)
Fixpoint foldlM {A B} (f : B -> A -> res B) (b : B) (l : list A) : res B :=
  match l with
  | [] => Ok b
  | a :: l' => b' ← f b a; foldlM f b' l'
  end.

(** [get_W]: [None] is Python's [None]. *)
Definition get_W (self : TAI R) (codon : string) : res (option R) :=
  if decide (codon ∈ ["atg"; "tga"; "taa"; "tag"]) then Ok None
  else if decide (codon = "ata") then
    s ← get_s codon "cat";
    Ok (Some ((1 - s) * 1))
  else
    acs ← anticodons codon;
    W ← foldlM (fun W anticodon =>
                  s ← get_s codon anticodon;
                  n ← subscript (tGCN_dict self) anticodon;
                  Ok (W + (1 - s) * n))
               0 acs;
    Ok (Some W).

(** The local [W_dict] of [set_w_dict], in insertion order.  [get_W] is
    only called on codons for which it returns a number; a [None] among
    the values would make [max] raise [TypeError]. *)
Definition make_W_dict (self : TAI R) : res (list (string * R)) :=
  mapM (fun codon =>
          W ← get_W self codon;
          match W with
          | Some W => Ok (codon, W)
          | None => Err TypeError
          end)
       (filter (fun codon => codon ∉ ["atg"; "taa"; "tag"; "tga"]) codons).

(** The value that [set_w_dict] binds to [self.w_dict]. *)
Definition set_w_dict (self : TAI R) : res (gmap string R) :=
  W_dict ← make_W_dict self;
  max_W ← py_max W_dict.*2;
  w_dict ← mapM (fun kv => w ← truediv kv.2 max_W; Ok (kv.1, w)) W_dict;
  w_dict ←
    (if (0 <? length (filter (fun w => is_zero w = true) w_dict.*2))%nat
     then
       gm_non_zeros ←
         geo_mean (filter (fun w => is_zero w = false) w_dict.*2);
       Ok ((fun kv => if is_zero kv.2 then (kv.1, gm_non_zeros) else kv)
             <$> w_dict)
     else Ok w_dict);
  Ok (list_to_map w_dict).

Definition get_tai (self : TAI R) (seq : string) : res R :=
  let seq_codons := Str.lower <$> get_sequence_codons seq in
  ws ← mapM (subscript (w_dict self)) seq_codons;
  geo_mean ws.

(** [update]: the outcome and the instance as the call leaves it.  The
    first statement rebinds [tGCN_dict]; [set_w_dict] then reads the new
    table and rebinds [w_dict] unless it raises. *)
Definition update (tRNA_counts_dict : list (string * R)) (self : TAI R)
  : res () * TAI R :=
  match set_w_dict {| tGCN_dict := set_tGCN_dict tRNA_counts_dict;
                      w_dict := w_dict self |} with
  | Ok w =>
      (Ok (), {| tGCN_dict := set_tGCN_dict tRNA_counts_dict; w_dict := w |})
  | Err e =>
      (Err e, {| tGCN_dict := set_tGCN_dict tRNA_counts_dict;
                 w_dict := w_dict self |})
  end.

(** The instance between the two [None] bindings of [__init__] and its
    call of [update], which reads neither attribute before binding it. *)
Definition blank : TAI R := {| tGCN_dict := ∅; w_dict := ∅ |}.

(** [TAI(tRNA_counts_dict)]: an exception in [__init__] leaves the caller
    without an instance. *)
Definition init (tRNA_counts_dict : list (string * R)) : res (TAI R) :=
  match update tRNA_counts_dict blank with
  | (Ok _, self) => Ok self
  | (Err e, _) => Err e
  end.

(** The loop of [add_tRNA_genes] over the items of its argument:
    [self.tGCN_dict[key] += count * expr_level]. *)
Fixpoint add_loop (items : list (string * R)) (expr_level : R)
         (tGCN : gmap string R) : res () * gmap string R :=
  match items with
  | [] => (Ok (), tGCN)
  | item :: items' =>
      let key := normalize item.1 in
      match tGCN !! key with
      | Some n => add_loop items' expr_level
                           (<[key := n + item.2 * expr_level]> tGCN)
      | None => (Err KeyError, tGCN)
      end
  end.

Definition add_tRNA_genes (tRNA_counts_dict : list (string * R))
           (expr_level : R) (self : TAI R) : res () * TAI R :=
  let (r, tGCN) := add_loop tRNA_counts_dict expr_level (tGCN_dict self) in
  (r, {| tGCN_dict := tGCN; w_dict := w_dict self |}).

End Calculator.

Global Arguments codons : simpl never.
Global Arguments pairing_keys : simpl never.
Global Arguments rev_compl : simpl never.
Global Arguments anticodons : simpl never.
Global Arguments get_sequence_codons : simpl never.
Global Arguments load_s_dict : simpl never.
Global Arguments set_tGCN_dict : simpl never.
Global Arguments get_s : simpl never.
Global Arguments get_W : simpl never.
Global Arguments make_W_dict : simpl never.
Global Arguments set_w_dict : simpl never.
Global Arguments get_tai : simpl never.
Global Arguments update : simpl never.
Global Arguments init : simpl never.

Section NaiveS.
Context {R : Type} `{PyNum R}.
Local Open Scope num_scope.

(** [get_naive_s].  [half] is the literal [0.5]; the method does not read
    [self].  The keys of [bc.complement] are one-character strings, so any
    other [third_codon_base] raises [KeyError]. *)
Definition get_naive_s (half : R) (self : TAI R)
           (third_codon_base first_anticodon_base : string) : res R :=
  match third_codon_base with
  | String x EmptyString =>
      c ← complement x;
      if decide (String c EmptyString = first_anticodon_base) then Ok 0
      else Ok half
  | _ => Err KeyError
  end.

End NaiveS.

(** ** Exact rational arithmetic *)

Module Exact.

Definition Qc_eqb (x y : Qc) : bool :=
  (Qnum x * QDen y =? Qnum y * QDen x)%Z.

Definition Qc_gtb (x y : Qc) : bool :=
  (Qnum y * QDen x <? Qnum x * QDen y)%Z.

(** Rational numbers are not closed under [**]: the power is a parameter
    of the instance, and [power] below the one the examples run on. *)
Definition num (pw : Qc -> Qc -> Qc) : PyNum Qc := {|
  zero := Q2Qc 0;
  one := Q2Qc 1;
  add := Qcplus;
  sub := Qcminus;
  mul := Qcmult;
  div := Qcdiv;
  pow := pw;
  of_nat := fun n => Q2Qc (inject_Z (Z.of_nat n));
  eqb := Qc_eqb;
  gtb := Qc_gtb;
|}.

(** The greatest [r] with [r ^ q <= n], for [n >= 0], by bisection
    between [lo] and [hi]. *)
Fixpoint iroot_loop (fuel : nat) (q : positive) (n lo hi : Z) : Z :=
  match fuel with
  | O => lo
  | S fuel' =>
      if (hi - lo <=? 1)%Z then lo
      else
        let mid := ((lo + hi) / 2)%Z in
        if (mid ^ Zpos q <=? n)%Z then iroot_loop fuel' q n mid hi
        else iroot_loop fuel' q n lo mid
  end.

Definition iroot (q : positive) (n : Z) : Z :=
  iroot_loop (S (Z.to_nat (Z.log2_up (n + 1)))) q n 0 (n + 1).

(** [x ** e] for [x >= 0] and [e = p / q] in lowest terms: the [q]-th root
    of [x ^ p].  It is exact when the root is rational; an irrational
    root is cut off below its 64th binary place relative to the
    denominator, where Python rounds to 53 bits.  An integer power is
    exact for every [x].  Python raises an exception for a negative
    power of 0 and gives a complex number for a fractional power of a
    negative number; the calculator forms [**] only in [geo_mean], with
    [e = 1 / len] and [x] a product of weights. *)
Definition power (x e : Qc) : Qc :=
  let y := Qred (Qpower (this x) (Qnum (this e))) in
  let q := Qden (this e) in
  if decide (q = 1%positive) then Q2Qc y
  else
    let a := Qnum y in
    let b := Zpos (Qden y) in
    let ra := iroot q a in
    let rb := iroot q b in
    if ((ra ^ Zpos q =? a) && (rb ^ Zpos q =? b))%Z
    then Q2Qc (Qmake ra (Z.to_pos rb))
    else
      let s := (2 ^ 64)%Z in
      Q2Qc (Qmake (iroot q (a * b ^ (Zpos q - 1) * s ^ Zpos q))
                  (Z.to_pos (b * s))).

(** The instance on which the examples run. *)
Definition rational : PyNum Qc := num power.

Global Instance Qc_inhabited : Inhabited Qc := populate (Q2Qc 0).

Definition half : Qc := Q2Qc (1 # 2).
Definition two : Qc := Q2Qc 2.

(** An s-value file that gives every pairing the value 1/2. *)
Definition s_half : list (string * Qc) :=
  (fun key => (key, half)) <$> pairing_keys.

(** The same file without the row of the pairing al, which [load_s_dict]
    then sets to 1. *)
Definition s_no_al : list (string * Qc) :=
  filter (fun row => row.1 <> "al") s_half.

(** One gene copy of every anticodon. *)
Definition one_each : list (string * Qc) :=
  (fun anticodon => (anticodon, Q2Qc 1)) <$> codons.

(** [TAI(one_each)] under the s values [s_half]: the instance that
    [__init__] leaves. *)
Definition calculator (pw : Qc -> Qc -> Qc) : TAI Qc :=
  (@update Qc (num pw) s_half one_each blank).2.

(** Two extra copies of the gene for anticodon aaa. *)
Definition two_aaa : list (string * Qc) := [("aaa", two)].

(** The same, followed by a key that is no anticodon. *)
Definition two_aaa_xyz : list (string * Qc) :=
  [("aaa", two); ("xyz", Q2Qc 1)].




End Exact.

(** ** Binary64 arithmetic *)

Module Binary64.

(** Python's floats are the binary64 numbers of IEEE 754, here the
    primitive floats of the kernel: [+], [-], [*] and [/] round to
    nearest, [==] and [>] compare as IEEE 754 says.  Python's ints, which
    are exact, are read as floats: the two agree as long as the ints and
    their sums and products stay below 2^53, which [len] and gene counts
    do.  [x ** e] goes to the [pow] of the C library, which the kernel
    does not have: it is a parameter of the instance. *)
Definition num (pw : float -> float -> float) : PyNum float := {|
  zero := 0%float;
  one := 1%float;
  add := PrimFloat.add;
  sub := PrimFloat.sub;
  mul := PrimFloat.mul;
  div := PrimFloat.div;
  pow := pw;
  of_nat := fun n => PrimFloat.of_uint63 (Uint63.of_Z (Z.of_nat n));
  eqb := PrimFloat.eqb;
  gtb := fun x y => PrimFloat.ltb y x;
|}.

(** An s-value file that gives every pairing the value 0.5. *)
Definition s_half : list (string * float) :=
  (fun key => (key, 0.5%float)) <$> pairing_keys.

(** One gene copy of every anticodon. *)
Definition one_each : list (string * float) :=
  (fun anticodon => (anticodon, 1%float)) <$> codons.

(** [TAI(one_each)] under the s values [s_half]. *)
Definition calculator (pw : float -> float -> float) : TAI float :=
  (@update float (num pw) s_half one_each blank).2.

End Binary64.

(** [s * n] on a string. *)
Definition repeated (s : string) (n : nat) : string :=
  String.concat "" (replicate n s).

(** ** Vocabulary of the specification *)

(** The characters that [rev_compl] accepts. *)
Definition valid_base (c : ascii) : Prop :=
  c ∈ list_ascii_of_string "acgtuACGTU".

Definition valid_sequence (x : string) : Prop :=
  Forall valid_base (list_ascii_of_string x).

(** The complement of a valid base, as [rev_compl] computes it. *)
Definition compl_base (c : ascii) : ascii :=
  match complement (Str.lower_ascii c) with
  | Ok d => d
  | Err _ => c
  end.

(** The keys of a counts dictionary as [set_tGCN_dict] and
    [add_tRNA_genes] read them. *)
Definition normal_keys {R} (counts : list (string * R)) : list string :=
  normalize <$> counts.*1.

(** The amount that [add_tRNA_genes] adds to the entry of anticodon [a],
    starting from its count [n]: one addition per item listed under [a]. *)
Definition added {R} `{PyNum R} (extra : list (string * R)) (expr_level : R)
           (a : string) (n : R) : R :=
  foldl (fun n item => add n (mul item.2 expr_level)) n
        (filter (fun item => normalize item.1 = a) extra).

(** No anticodon is missing from the tGCN table. *)
Definition complete {R} (self : TAI R) : Prop :=
  forall a, a ∈ codons -> is_Some (tGCN_dict self !! a).

(** The start codon and the three stop codons. *)
Definition start_stop : list string := ["atg"; "taa"; "tga"; "tag"].

(** Non-overlapping 3-base windows from position 0; a trailing partial
    window is dropped. *)
Fixpoint windows3 (l : list ascii) : list string :=
  match l with
  | a :: b :: c :: rest => triplet a b c :: windows3 rest
  | _ => []
  end.

(** The filtered codon list of a sequence: the windows of the normalised
    sequence, in order of appearance, without start and stop codons. *)
Definition sequence_to_codons (seq : string) : list string :=
  filter (fun codon => codon ∉ start_stop)
         (windows3 (list_ascii_of_string (normalize seq))).

(** The key under which [get_s] looks the pairing up in [s_dict]. *)
Definition pairing_key (codon anticodon : string) : res string :=
  acs ← anticodons codon;
  if decide (anticodon ∈ acs) then
    third_base ← Str.index codon 2;
    recognizer ← Str.index anticodon 0;
    let recognizer :=
      if decide (recognizer = "a"%char) then "i"%char else recognizer in
    let recognizer :=
      if decide ((codon, anticodon) = ("ata", "cat")) then "l"%char
      else recognizer in
    Ok (String third_base (String recognizer EmptyString))
  else Err ValueError.

(** A codon has four anticodons, each one of the 64 triplets and each
    paired with it under one of the keys that [load_s_dict] fills in. *)
Definition pairs_ok (codon : string) : bool :=
  match anticodons codon with
  | Ok acs =>
      bool_decide (length acs = 4%nat) &&
      forallb (fun a =>
                 bool_decide (a ∈ codons) &&
                 match pairing_key codon a with
                 | Ok key => bool_decide (key ∈ pairing_keys)
                 | Err _ => false
                 end) acs
  | Err _ => false
  end.

(** The sense codons: all codons but the three stop codons. *)
Definition stop_codons : list string := ["taa"; "tga"; "tag"].

Definition sense_codons : list string :=
  filter (fun codon => codon ∉ stop_codons) codons.

(** The raw weights: each sense codon for which [get_W] returns a number,
    with that number. *)
Definition raw_weights {R} `{PyNum R} (s_rows : list (string * R))
           (self : TAI R) : list (string * R) :=
  omap (fun codon =>
          match get_W s_rows self codon with
          | Ok (Some W) => Some (codon, W)
          | _ => None
          end)
       sense_codons.

(** [M] is a greatest element of [l]. *)
Definition is_max {R} `{PyNum R} (M : R) (l : list R) : Prop :=
  M ∈ l /\ forall x, x ∈ l -> gtb x M = false.

(** The part of the laws of an ordered field that the normalisation of
    the weights relies on; rational and real numbers satisfy them. *)
Class NumLaws (R : Type) `{PyNum R} : Prop := {
  eqb_eq (x y : R) : eqb x y = true <-> x = y;
  gtb_irrefl (x : R) : gtb x x = false;
  gtb_trans (x y z : R) : gtb x y = true -> gtb y z = true -> gtb x z = true;
  gtb_total (x y : R) : x <> y -> gtb x y = false -> gtb y x = true;
  div_zero (y : R) : y <> zero -> div zero y = zero;
  div_pos (x y : R) :
    gtb x zero = true -> gtb y zero = true -> gtb (div x y) zero = true;
}.

(** The statements of [set_w_dict] that follow the construction of
    [W_dict]. *)
Definition normalise {R} `{PyNum R} (W_dict : list (string * R))
  : res (gmap string R) :=
  max_W ← py_max W_dict.*2;
  w_dict ← mapM (fun kv => w ← truediv kv.2 max_W; Ok (kv.1, w)) W_dict;
  w_dict ←
    (if (0 <? length (filter (fun w => is_zero w = true) w_dict.*2))%nat
     then
       gm_non_zeros ←
         geo_mean (filter (fun w => is_zero w = false) w_dict.*2);
       Ok ((fun kv => if is_zero kv.2 then (kv.1, gm_non_zeros) else kv)
             <$> w_dict)
     else Ok w_dict);
  Ok (list_to_map w_dict).

(** The operations that rebind or mutate the attributes of an instance. *)
Inductive op (R : Type) : Type :=
| Update (tRNA_counts_dict : list (string * R))
| AddGenes (tRNA_counts_dict : list (string * R)) (expr_level : R).
Global Arguments Update {R} _.
Global Arguments AddGenes {R} _ _.

Definition run {R} `{PyNum R} (s_rows : list (string * R)) (o : op R)
           (self : TAI R) : res () * TAI R :=
  match o with
  | Update counts => update s_rows counts self
  | AddGenes extra expr_level => add_tRNA_genes extra expr_level self
  end.

(** [w_dict] is what [set_w_dict] derives from the current [tGCN_dict]. *)
Definition fresh {R} `{PyNum R} (s_rows : list (string * R))
           (self : TAI R) : Prop :=
  set_w_dict s_rows self = Ok (w_dict self).

(** [(w * ... ) ** (1 / len)] for the non-empty list [w :: ws], with the
    product taken from left to right, as the arithmetic at hand evaluates
    it: the geometric mean of the list when that arithmetic is exact. *)
Definition geometric_mean {R} `{PyNum R} (w : R) (ws : list R) : R :=
  pow (foldl mul w ws) (div one (of_nat (length (w :: ws)))).

(** Outcomes can be compared when values can. *)
Global Instance res_eq_dec {A} `{EqDecision A} : EqDecision (res A).
Proof. solve_decision. Defined.

(** The value under [k] of a dictionary built by the assignments
    [d[normalize(key)] = value] over [items], in order: the value of the
    last item listed under [k]. *)
Definition last_value {R} (items : list (string * R)) (k : string)
  : option R :=
  snd <$> last (filter (fun item => normalize item.1 = k) items).

(** The instances that the methods of the class give: what the
    constructor returns, and what any later call of [update],
    [add_tRNA_genes], [set_tGCN_dict] or [set_w_dict] leaves, whether the
    call returns or raises ([set_w_dict] that raises leaves the instance
    as it was). *)
Inductive reachable {R} `{PyNum R} (s_rows : list (string * R))
  : TAI R -> Prop :=
| reachable_init counts self :
    init s_rows counts = Ok self -> reachable s_rows self
| reachable_run o self :
    reachable s_rows self -> reachable s_rows (run s_rows o self).2
| reachable_set_tGCN_dict counts self :
    reachable s_rows self ->
    reachable s_rows
      {| tGCN_dict := set_tGCN_dict counts; w_dict := w_dict self |}
| reachable_set_w_dict self w :
    reachable s_rows self -> set_w_dict s_rows self = Ok w ->
    reachable s_rows {| tGCN_dict := tGCN_dict self; w_dict := w |}.

(** * Properties *)

(** ** Unfolding equations

    The tables of the calculator range over the 64 codons, so the
    definitions that build them are kept folded in proofs and unfolded
    one step at a time by these equations. *)

Lemma codons_unfold :
  codons = (x ← bases; y ← bases; z ← bases; [triplet x y z]).
Proof. reflexivity. Qed.

Lemma pairing_keys_unfold :
  pairing_keys =
  (codon_base ← bases;
   anticodon_base ← (bases ++ ["i"; "l"]%char)%list;
   [String codon_base (String anticodon_base EmptyString)]).
Proof. reflexivity. Qed.

Section Unfolding.
Context {R : Type} `{PyNum R}.
Local Open Scope num_scope.
Variable s_rows : list (string * R).

Lemma get_s_unfold (codon anticodon : string) :
  get_s s_rows codon anticodon =
  acs ← anticodons codon;
  if decide (anticodon ∈ acs) then
    third_base ← Str.index codon 2;
    recognizer ← Str.index anticodon 0;
    let recognizer :=
      if decide (recognizer = "a"%char) then "i"%char else recognizer in
    let recognizer :=
      if decide ((codon, anticodon) = ("ata", "cat")) then "l"%char
      else recognizer in
    subscript (s_dict s_rows)
              (String third_base (String recognizer EmptyString))
  else Err ValueError.
Proof. reflexivity. Qed.

Lemma get_W_unfold (self : TAI R) (codon : string) :
  get_W s_rows self codon =
  if decide (codon ∈ ["atg"; "tga"; "taa"; "tag"]) then Ok None
  else if decide (codon = "ata") then
    s ← get_s s_rows codon "cat";
    Ok (Some ((1 - s) * 1))
  else
    acs ← anticodons codon;
    W ← foldlM (fun W anticodon =>
                  s ← get_s s_rows codon anticodon;
                  n ← subscript (tGCN_dict self) anticodon;
                  Ok (W + (1 - s) * n))
               0 acs;
    Ok (Some W).
Proof. reflexivity. Qed.

Lemma make_W_dict_unfold (self : TAI R) :
  make_W_dict s_rows self =
  mapM (fun codon =>
          W ← get_W s_rows self codon;
          match W with
          | Some W => Ok (codon, W)
          | None => Err TypeError
          end)
       (filter (fun codon => codon ∉ ["atg"; "taa"; "tag"; "tga"]) codons).
Proof. reflexivity. Qed.

Lemma set_w_dict_unfold (self : TAI R) :
  set_w_dict s_rows self =
  W_dict ← make_W_dict s_rows self;
  max_W ← py_max W_dict.*2;
  w_dict ← mapM (fun kv => w ← truediv kv.2 max_W; Ok (kv.1, w)) W_dict;
  w_dict ←
    (if (0 <? length (filter (fun w => is_zero w = true) w_dict.*2))%nat
     then
       gm_non_zeros ←
         geo_mean (filter (fun w => is_zero w = false) w_dict.*2);
       Ok ((fun kv => if is_zero kv.2 then (kv.1, gm_non_zeros) else kv)
             <$> w_dict)
     else Ok w_dict);
  Ok (list_to_map w_dict).
Proof. reflexivity. Qed.

Lemma set_w_dict_normalise (self : TAI R) :
  set_w_dict s_rows self = (make_W_dict s_rows self ≫= normalise).
Proof. reflexivity. Qed.

End Unfolding.

Global Opaque codons pairing_keys get_s get_W make_W_dict set_w_dict.

(** ** Results *)

Lemma pair_fst {A B} (p : A * B) (a : A) : p.1 = a -> p = (a, p.2).
Proof. destruct p as [a' b]. cbn. by intros ->. Qed.

Lemma fmap_fixed {A} (f : A -> A) (l : list A) :
  Forall (fun x => f x = x) l -> f <$> l = l.
Proof. induction 1 as [|x l Hx _ IH]; [done|]. cbn. by rewrite Hx, IH. Qed.

Lemma mapM_res_ext {A B} (f g : A -> res B) (l : list A) :
  (forall x, f x = g x) -> mapM f l = mapM g l.
Proof.
  intros Hfg. induction l as [|x l IH]; [done|].
  cbn. by rewrite Hfg, IH.
Qed.

Lemma mapM_res_Forall2 {A B} (f : A -> res B) (l : list A) (ys : list B) :
  Forall2 (fun x y => f x = Ok y) l ys -> mapM f l = Ok ys.
Proof.
  induction 1 as [|x y l ys Hx _ IH]; [done|].
  cbn. by rewrite Hx, IH.
Qed.

(** ** Strings and the reverse complement *)

Lemma list_of_string_of (l : list ascii) :
  list_ascii_of_string (string_of_list_ascii l) = l.
Proof. apply list_ascii_of_string_of_list_ascii. Qed.

Lemma lower_of_list (l : list ascii) :
  Str.lower (string_of_list_ascii l) =
  string_of_list_ascii (Str.lower_ascii <$> l).
Proof. unfold Str.lower. by rewrite list_of_string_of. Qed.

Lemma reverse_of_list (l : list ascii) :
  Str.reverse (string_of_list_ascii l) = string_of_list_ascii (reverse l).
Proof. unfold Str.reverse. by rewrite list_of_string_of. Qed.

Lemma complement_all_fmap (f : ascii -> ascii) (l : list ascii) :
  Forall (fun c => complement c = Ok (f c)) l ->
  complement_all l = Ok (f <$> l).
Proof.
  induction 1 as [|c l Hc _ IH]; [done|].
  cbn. rewrite Hc. cbn. by rewrite IH.
Qed.

Lemma valid_base_cases (P : ascii -> Prop) :
  Forall P (list_ascii_of_string "acgtuACGTU") ->
  forall c, valid_base c -> P c.
Proof. intros HP c Hc. by eapply Forall_forall in HP. Qed.

Lemma complement_lower (c : ascii) :
  valid_base c -> complement (Str.lower_ascii c) = Ok (compl_base c).
Proof.
  revert c. apply valid_base_cases. repeat constructor.
Qed.

Lemma compl_base_valid (c : ascii) : valid_base c -> valid_base (compl_base c).
Proof.
  revert c. apply valid_base_cases.
  repeat (constructor; [vm_compute; set_solver|]). constructor.
Qed.

Lemma compl_base_twice (c : ascii) :
  valid_base c ->
  compl_base (compl_base c) =
  Str.replace_ascii "u" "t" (Str.lower_ascii c).
Proof.
  revert c. apply valid_base_cases. repeat constructor.
Qed.

Lemma complement_all_lower (l : list ascii) :
  Forall valid_base l ->
  complement_all (Str.lower_ascii <$> l) = Ok (compl_base <$> l).
Proof.
  induction 1 as [|c l Hc _ IH]; [done|].
  cbn. rewrite (complement_lower c Hc). cbn. by rewrite IH.
Qed.

Lemma rev_compl_valid (x : string) :
  valid_sequence x ->
  rev_compl x false =
  Ok (string_of_list_ascii (compl_base <$> reverse (list_ascii_of_string x))).
Proof.
  intros Hx. unfold rev_compl, Str.reverse.
  rewrite lower_of_list, list_of_string_of, complement_all_lower; [done|].
  by apply Forall_reverse.
Qed.

(** C6, as the code has it: on a valid sequence [rev_compl] succeeds, and
    applying it to its own result gives the sequence in lower case with
    every u replaced by t, which is the sequence itself when it is made of
    the lower-case bases t, c, a and g. *)
Theorem rev_compl_twice (x : string) :
  valid_sequence x ->
  exists y,
    rev_compl x false = Ok y /\ rev_compl y false = Ok (normalize x) /\
    (Forall (fun c => c ∈ bases) (list_ascii_of_string x) -> normalize x = x).
Proof.
  intros Hx. eexists. split; [by apply rev_compl_valid|]. split; cycle 1.
  { intros Hlow. rewrite <-(string_of_list_ascii_of_string x) at 2.
    unfold normalize, Str.replace, Str.lower.
    rewrite list_of_string_of, <-list_fmap_compose. f_equal.
    apply fmap_fixed. eapply Forall_impl; [exact Hlow|].
    intros c Hc. revert c Hc. apply Forall_forall. by repeat constructor. }
  rewrite rev_compl_valid.
  - rewrite list_of_string_of, <-fmap_reverse, reverse_involutive.
    unfold normalize, Str.replace, Str.lower.
    rewrite list_of_string_of, <-!list_fmap_compose.
    do 2 f_equal. apply Forall_fmap_ext.
    eapply Forall_impl; [exact Hx|]. intros c Hc. by apply compl_base_twice.
  - unfold valid_sequence. rewrite list_of_string_of.
    apply Forall_fmap, Forall_reverse.
    eapply Forall_impl; [exact Hx|]. intros c Hc. by apply compl_base_valid.
Qed.

Lemma rev_compl_twice_witness :
  valid_sequence "AUGc" /\
  exists y, rev_compl "AUGc" false = Ok y /\
            rev_compl y false = Ok (normalize "AUGc") /\
            (Forall (fun c => c ∈ bases) (list_ascii_of_string "AUGc") ->
             normalize "AUGc" = "AUGc").
Proof.
  assert (Hv : valid_sequence "AUGc").
  { repeat (constructor; [vm_compute; set_solver|]). constructor. }
  split; [exact Hv|]. exact (rev_compl_twice "AUGc" Hv).
Defined.

(** C6 as stated fails on a u, which comes back as a t. *)
Lemma rev_compl_twice_not_identity :
  (rev_compl "u" false ≫= fun y => rev_compl y false) = Ok "t" /\
  (rev_compl "G" false ≫= fun y => rev_compl y false) = Ok "g".
Proof. split; reflexivity. Qed.

(** ** Segmentation into codons *)

Lemma list_ind3 {A} (P : list A -> Prop) :
  P [] -> (forall a, P [a]) -> (forall a b, P [a; b]) ->
  (forall a b c l, P l -> P (a :: b :: c :: l)) ->
  forall l, P l.
Proof.
  intros H0 H1 H2 H3 l.
  assert (Hlen : forall n l, (length l <= n)%nat -> P l).
  { clear l. induction n as [|n IH]; intros [|a [|b [|c l]]] Hl; cbn in Hl;
      try done; try lia.
    apply H3, IH. lia. }
  by apply (Hlen (length l)).
Qed.

Lemma string_length_list (s : string) :
  String.length s = length (list_ascii_of_string s).
Proof. induction s as [|c s IH]; cbn; [done|]. by rewrite IH. Qed.

Lemma range_0_3 (q : nat) :
  range 0 (q * 3) 3 = (fun j => j * 3)%nat <$> seq 0 q.
Proof.
  unfold range. replace ((q * 3 - 0 + 3 - 1) / 3)%nat with q; [done|].
  apply (Nat.div_unique _ 3 q 2); lia.
Qed.

Lemma slices_windows3 (l : list ascii) :
  (fun j => Str.slice (j * 3) 3 (string_of_list_ascii l))
    <$> seq 0 (length l / 3) = windows3 l.
Proof.
  induction l as [|a|a b|a b c l IH] using list_ind3; try done.
  replace (length (a :: b :: c :: l) / 3)%nat with (S (length l / 3)).
  2: { cbn [length].
       apply (Nat.div_unique _ 3 _ (length l mod 3)).
       - apply Nat.mod_upper_bound. lia.
       - pose proof (Nat.div_mod_eq (length l) 3). lia. }
  cbn [seq fmap list_fmap]. rewrite <-fmap_S_seq, <-list_fmap_compose.
  cbn [windows3]. rewrite <-IH. f_equal.
  cbn. by destruct (string_of_list_ascii l).
Qed.

Lemma lower_normal_ascii (c : ascii) :
  Str.lower_ascii (Str.replace_ascii "u" "t" (Str.lower_ascii c)) =
  Str.replace_ascii "u" "t" (Str.lower_ascii c).
Proof. by destruct c as [[] [] [] [] [] [] [] []]. Qed.

Lemma normalize_list (s : string) :
  list_ascii_of_string (normalize s) =
  (fun c => Str.replace_ascii "u" "t" (Str.lower_ascii c))
    <$> list_ascii_of_string s.
Proof.
  unfold normalize, Str.replace, Str.lower.
  by rewrite !list_of_string_of, <-list_fmap_compose.
Qed.

Lemma windows3_lower (l : list ascii) :
  Forall (fun c => Str.lower_ascii c = c) l ->
  Forall (fun codon => Str.lower codon = codon) (windows3 l).
Proof.
  induction l as [|a|a b|a b c l IH] using list_ind3; try by constructor.
  intros Hl. inversion_clear Hl as [|? ? Ha Hl'].
  inversion_clear Hl' as [|? ? Hb Hl].
  inversion_clear Hl as [|? ? Hc Hl'].
  cbn [windows3]. constructor; [|by apply IH].
  unfold Str.lower. cbn. by rewrite Ha, Hb, Hc.
Qed.

Lemma start_stop_to_remove (codon : string) :
  codon ∉ codons_to_remove <-> codon ∉ start_stop.
Proof.
  unfold codons_to_remove, start_stop. apply not_iff_compat.
  rewrite !elem_of_union, !elem_of_singleton, !elem_of_cons, elem_of_nil.
  tauto.
Qed.

(** [get_sequence_codons] computes the filtered codon list, already in
    lower case. *)
Lemma get_sequence_codons_spec (seq : string) :
  get_sequence_codons seq = sequence_to_codons seq /\
  Str.lower <$> get_sequence_codons seq = sequence_to_codons seq.
Proof.
  assert (Heq : get_sequence_codons seq = sequence_to_codons seq).
  { unfold get_sequence_codons, sequence_to_codons.
    rewrite range_0_3, <-list_fmap_compose, string_length_list.
    rewrite <-(slices_windows3 (list_ascii_of_string (normalize seq))).
    rewrite string_of_list_ascii_of_string.
    apply list_filter_iff. intros codon. apply start_stop_to_remove. }
  split; [done|]. rewrite Heq. apply fmap_fixed.
  unfold sequence_to_codons. apply List.Forall_forall. 
  intros codon Hin. apply list_elem_of_In, list_elem_of_filter in Hin as [_ Hin].
  revert codon Hin. apply Forall_forall, windows3_lower.
  rewrite normalize_list. apply Forall_fmap, Forall_true.
  intros c. apply lower_normal_ascii.
Qed.

(** ** The tGCN table *)

Section TableProperties.
Context {R : Type} `{PyNum R}.
Local Open Scope num_scope.
Implicit Types (d tGCN : gmap string R) (k a : string).
Implicit Types (counts : list (string * R)).

Lemma assign_lookup_other counts d k :
  k ∉ normal_keys counts ->
  foldl (fun d item => <[normalize item.1 := item.2]> d) d counts !! k = d !! k.
Proof.
  revert d. induction counts as [|[k' v] counts IH]; intros d Hk; [done|].
  unfold normal_keys in *. cbn in *.
  apply not_elem_of_cons in Hk as [Hne Hk].
  rewrite IH by done. by rewrite lookup_insert_ne.
Qed.

Lemma fill_lookup (l : list string) (x : R) d k :
  foldl (fun d t => match d !! t with Some _ => d | None => <[t := x]> d end)
        d l !! k =
  match d !! k with
  | Some v => Some v
  | None => if decide (k ∈ l) then Some x else None
  end.
Proof.
  revert d. induction l as [|t l IH]; intros d; cbn.
  { destruct (d !! k); [done|]. by rewrite decide_False by set_solver. }
  rewrite IH. destruct (d !! t) as [v|] eqn:Ht.
  - destruct (d !! k) as [v'|] eqn:Hk; [done|].
    assert (k <> t) by congruence.
    destruct (decide (k ∈ l)) as [Hl|Hl];
      [rewrite decide_True by (by right)
      |rewrite decide_False by (by intros [?|?]%elem_of_cons)]; done.
  - destruct (decide (k = t)) as [->|Hne].
    + rewrite lookup_insert_eq, Ht. by rewrite decide_True by set_solver.
    + rewrite lookup_insert_ne by done.
      destruct (d !! k); [done|].
      destruct (decide (k ∈ l)) as [Hl|Hl];
      [rewrite decide_True by (by right)
      |rewrite decide_False by (by intros [?|?]%elem_of_cons)]; done.
Qed.

Lemma load_s_dict_complete (rows : list (string * R)) k :
  k ∈ pairing_keys -> is_Some (load_s_dict rows !! k).
Proof.
  intros Hk. unfold load_s_dict. rewrite fill_lookup.
  destruct (foldl _ _ _ !! k); [by eexists|].
  rewrite decide_True by done. by eexists.
Qed.

Lemma set_tGCN_dict_lookup counts k :
  k ∉ normal_keys counts ->
  set_tGCN_dict counts !! k = if decide (k ∈ codons) then Some 0 else None.
Proof.
  intros Hk. unfold set_tGCN_dict. rewrite fill_lookup.
  by rewrite assign_lookup_other, lookup_empty.
Qed.

Lemma set_tGCN_dict_codon counts a :
  a ∈ codons -> is_Some (set_tGCN_dict counts !! a).
Proof.
  intros Ha. unfold set_tGCN_dict. rewrite fill_lookup.
  destruct (foldl _ _ _ !! a); [by eexists|].
  rewrite decide_True by done. by eexists.
Qed.

Lemma set_tGCN_dict_keys counts k :
  Forall (fun k => k ∈ codons) (normal_keys counts) ->
  is_Some (set_tGCN_dict counts !! k) -> k ∈ codons.
Proof.
  intros Hkeys. destruct (decide (k ∈ normal_keys counts)) as [Hin|Hout].
  - intros _. by eapply Forall_forall in Hkeys.
  - rewrite set_tGCN_dict_lookup by done.
    destruct (decide (k ∈ codons)); [done|]. by intros [? ?].
Qed.

Lemma normal_keys_cons (extra : list (string * R)) k (v : R) :
  normal_keys ((k, v) :: extra) = normalize k :: normal_keys extra.
Proof. done. Qed.

Lemma filter_key_absent (extra : list (string * R)) a :
  a ∉ normal_keys extra ->
  filter (fun item => normalize item.1 = a) extra = [].
Proof.
  induction extra as [|[k v] extra IH]; [done|].
  rewrite normal_keys_cons. intros [Hne Hout]%not_elem_of_cons.
  rewrite filter_cons_False by (cbn; congruence). by apply IH.
Qed.

Lemma filter_key_unique (extra : list (string * R)) key count :
  NoDup (normal_keys extra) -> (key, count) ∈ extra ->
  filter (fun item => normalize item.1 = normalize key) extra = [(key, count)].
Proof.
  induction extra as [|[k v] extra IH]; [by intros _ ?%elem_of_nil|].
  rewrite normal_keys_cons.
  intros [Hk Hnd]%NoDup_cons [[= -> ->]|Hin]%elem_of_cons.
  - rewrite filter_cons_True by done. by rewrite filter_key_absent.
  - rewrite filter_cons_False; [by apply IH|].
    cbn. intros Heq. apply Hk. rewrite Heq.
    apply list_elem_of_fmap_2, (list_elem_of_fmap_2 fst _ (key, count)), Hin.
Qed.

Lemma add_loop_known extra lvl tGCN :
  (forall item, item ∈ extra -> is_Some (tGCN !! normalize item.1)) ->
  exists tGCN',
    add_loop extra lvl tGCN = (Ok (), tGCN') /\
    forall a, tGCN' !! a = added extra lvl a <$> tGCN !! a.
Proof.
  revert tGCN. induction extra as [|[k v] extra IH]; intros tGCN Hknown.
  { exists tGCN. split; [done|]. intros a. by destruct (tGCN !! a). }
  destruct (Hknown (k, v)) as [n Hn]; [set_solver|].
  cbn in *. rewrite Hn.
  destruct (IH (<[normalize k := n + v * lvl]> tGCN)) as (tGCN' & Hrun & Hlook).
  { intros item Hitem. destruct (decide (normalize k = normalize item.1)) as [->|].
    - rewrite lookup_insert_eq. by eexists.
    - rewrite lookup_insert_ne by done. apply Hknown. set_solver. }
  exists tGCN'. split; [done|]. intros a. rewrite Hlook. unfold added.
  destruct (decide (normalize k = a)) as [<-|Hne].
  - rewrite lookup_insert_eq, Hn, filter_cons_True by done. done.
  - rewrite lookup_insert_ne, filter_cons_False by done. done.
Qed.

Lemma add_loop_unknown extra lvl tGCN item :
  (forall k, is_Some (tGCN !! k) -> k ∈ codons) ->
  item ∈ extra -> normalize item.1 ∉ codons ->
  (add_loop extra lvl tGCN).1 = Err KeyError.
Proof.
  revert tGCN. induction extra as [|[k v] extra IH]; intros tGCN Hdom Hin Hbad.
  { by apply elem_of_nil in Hin. }
  cbn. destruct (tGCN !! normalize k) as [n|] eqn:Hn; [|done].
  apply elem_of_cons in Hin as [->|Hin].
  { destruct Hbad. apply Hdom. by eexists. }
  apply IH; [|done..]. intros k' [n' Hk'].
  destruct (decide (normalize k = k')) as [<-|Hne].
  - apply Hdom. by eexists.
  - rewrite lookup_insert_ne in Hk' by done. apply Hdom. by eexists.
Qed.

(** What [add_loop] leaves behind when it raises: the additions of the
    items before the first unknown key. *)
Lemma add_loop_failed extra lvl tGCN e tGCN' :
  add_loop extra lvl tGCN = (Err e, tGCN') ->
  e = KeyError /\
  exists applied bad rest,
    extra = applied ++ bad :: rest /\
    add_loop applied lvl tGCN = (Ok (), tGCN') /\
    tGCN' !! normalize bad.1 = None.
Proof.
  revert tGCN. induction extra as [|[k v] extra IH]; intros tGCN; cbn.
  { intros [=]. }
  destruct (tGCN !! normalize k) as [n|] eqn:Hn.
  - intros Hrun. destruct (IH _ Hrun) as (-> & applied & bad & rest & -> & Happ & Hbad).
    split; [done|]. exists ((k, v) :: applied), bad, rest.
    split; [done|]. cbn. by rewrite Hn.
  - intros [= <- <-]. split; [done|]. by exists [], (k, v), extra.
Qed.

End TableProperties.

(** ** Raw weights *)

Lemma pairs_ok_codons : forallb pairs_ok codons = true.
Proof. by vm_compute. Qed.

Section WeightProperties.
Context {R : Type} `{PyNum R}.
Local Open Scope num_scope.
Variable s_rows : list (string * R).
Implicit Types (self : TAI R) (codon c a : string).

Lemma get_s_key c a :
  get_s s_rows c a = (key ← pairing_key c a; subscript (s_dict s_rows) key).
Proof.
  rewrite get_s_unfold. unfold pairing_key.
  destruct (anticodons c) as [acs|]; [cbn|done].
  destruct (decide (a ∈ acs)); [|done].
  destruct (Str.index c 2); [cbn|done]. by destruct (Str.index a 0).
Qed.

Lemma get_s_paired c a key :
  pairing_key c a = Ok key -> key ∈ pairing_keys ->
  exists s, get_s s_rows c a = Ok s.
Proof.
  intros Hkey Hin. rewrite get_s_key, Hkey. cbn. unfold subscript, s_dict.
  destruct (load_s_dict_complete s_rows key Hin) as [s ->]. by exists s.
Qed.

Lemma codon_pairs c :
  c ∈ codons ->
  exists acs,
    anticodons c = Ok acs /\ length acs = 4%nat /\
    Forall (fun a => a ∈ codons /\ exists s, get_s s_rows c a = Ok s) acs.
Proof.
  intros Hc. pose proof pairs_ok_codons as Hall.
  rewrite forallb_forall in Hall. apply list_elem_of_In, Hall in Hc.
  unfold pairs_ok in Hc. destruct (anticodons c) as [acs|]; [|done].
  apply andb_prop in Hc as [Hlen%bool_decide_eq_true Hacs].
  exists acs. repeat split; [done|].
  apply List.Forall_forall. intros a Ha.
  rewrite forallb_forall in Hacs. apply Hacs in Ha.
  apply andb_prop in Ha as [Hin%bool_decide_eq_true Hkey]. split; [done|].
  destruct (pairing_key c a) as [key|] eqn:Hk; [|done].
  apply bool_decide_eq_true in Hkey. by eapply get_s_paired.
Qed.

(** One turn of the loop of [get_W] per anticodon. *)
Lemma get_W_loop self c (acs : list string) (sns : list (R * R)) (W : R) :
  Forall2 (fun a sn => get_s s_rows c a = Ok sn.1 /\
                       tGCN_dict self !! a = Some sn.2) acs sns ->
  foldlM (fun W anticodon =>
            s ← get_s s_rows c anticodon;
            n ← subscript (tGCN_dict self) anticodon;
            Ok (W + (1 - s) * n)) W acs =
  Ok (foldl (fun W sn => W + (1 - sn.1) * sn.2) W sns).
Proof.
  intros Hall. revert W.
  induction Hall as [|a [s n] acs sns [Hs Hn] _ IH]; intros W; [done|].
  cbn [foldlM]. rewrite Hs. unfold subscript. cbn. rewrite Hn. cbn.
  apply IH.
Qed.

Lemma pairs_values self c (acs : list string) :
  complete self ->
  Forall (fun a => a ∈ codons /\ exists s, get_s s_rows c a = Ok s) acs ->
  exists sns : list (R * R),
    Forall2 (fun a sn => get_s s_rows c a = Ok sn.1 /\
                         tGCN_dict self !! a = Some sn.2) acs sns.
Proof.
  intros Hself. induction 1 as [|a acs [Ha [s Hs]] _ [sns IH]].
  - by exists [].
  - destruct (Hself a Ha) as [n Hn]. exists ((s, n) :: sns). by constructor.
Qed.

Lemma start_stop_get_W c :
  c ∈ ["atg"; "tga"; "taa"; "tag"] <-> c ∈ start_stop.
Proof. unfold start_stop. rewrite !elem_of_cons. tauto. Qed.

Lemma start_stop_set_w_dict c :
  c ∉ ["atg"; "taa"; "tag"; "tga"] <-> c ∉ start_stop.
Proof. unfold start_stop. rewrite !elem_of_cons. tauto. Qed.

Lemma get_W_start_stop self c :
  c ∈ start_stop -> get_W s_rows self c = Ok None.
Proof.
  intros Hc. rewrite get_W_unfold.
  by rewrite decide_True by by apply start_stop_get_W.
Qed.

Lemma get_W_ata :
  exists s, get_s s_rows "ata" "cat" = Ok s /\
            forall self, get_W s_rows self "ata" = Ok (Some ((1 - s) * 1)).
Proof.
  destruct (get_s_paired "ata" "cat" "al") as [s Hs];
    [by vm_compute | by apply (bool_decide_unpack _); vm_compute|].
  exists s. split; [done|]. intros self. rewrite get_W_unfold.
  rewrite decide_False by (by apply (bool_decide_unpack _); vm_compute).
  rewrite decide_True by done. by rewrite Hs.
Qed.

Lemma get_W_sum self c :
  c ∈ codons -> c ∉ start_stop -> c <> "ata" -> complete self ->
  exists (acs : list string) (sns : list (R * R)),
    anticodons c = Ok acs /\ length acs = 4%nat /\
    Forall2 (fun a sn => get_s s_rows c a = Ok sn.1 /\
                         tGCN_dict self !! a = Some sn.2) acs sns /\
    get_W s_rows self c =
      Ok (Some (foldl (fun W sn => W + (1 - sn.1) * sn.2) 0 sns)).
Proof.
  intros Hc Hss Hata Hself.
  destruct (codon_pairs c Hc) as (acs & Hacs & Hlen & Hall).
  destruct (pairs_values self c acs Hself Hall) as [sns Hsns].
  exists acs, sns. repeat split; [done..|].
  rewrite get_W_unfold.
  rewrite decide_False by (by rewrite start_stop_get_W).
  rewrite decide_False by done. rewrite Hacs. cbn.
  by rewrite (get_W_loop self c acs sns).
Qed.

(** C5: [get_W] returns [None] for the start and stop codons; for ata it
    returns [(1 - get_s('ata','cat')) * 1] whatever the tGCN table holds;
    for any other codon it returns the sum, over the four anticodons of
    the codon, of [(1 - get_s(codon, anticodon)) * tGCN_dict[anticodon]]. *)
Theorem get_W_cases self :
  (forall c, c ∈ start_stop -> get_W s_rows self c = Ok None) /\
  (exists s, get_s s_rows "ata" "cat" = Ok s /\
             forall self', get_W s_rows self' "ata" = Ok (Some ((1 - s) * 1))) /\
  (forall c,
      c ∈ codons -> c ∉ start_stop -> c <> "ata" -> complete self ->
      exists (acs : list string) (sns : list (R * R)),
        anticodons c = Ok acs /\ length acs = 4%nat /\
        Forall2 (fun a sn => get_s s_rows c a = Ok sn.1 /\
                             tGCN_dict self !! a = Some sn.2) acs sns /\
        get_W s_rows self c =
          Ok (Some (foldl (fun W sn => W + (1 - sn.1) * sn.2) 0 sns))).
Proof.
  split; [|split].
  - intros c. apply get_W_start_stop.
  - apply get_W_ata.
  - intros c. apply get_W_sum.
Qed.

Lemma get_W_number self c :
  complete self -> c ∈ codons -> c ∉ start_stop ->
  exists W, get_W s_rows self c = Ok (Some W).
Proof.
  intros Hself Hc Hss. destruct (decide (c = "ata")) as [->|Hata].
  - destruct get_W_ata as (s & _ & Hs). eexists. apply Hs.
  - destruct (get_W_sum self c Hc Hss Hata Hself) as (? & ? & _ & _ & _ & HW).
    eexists. apply HW.
Qed.

Lemma start_stop_stop c : c ∈ stop_codons -> c ∈ start_stop.
Proof. unfold stop_codons, start_stop. rewrite !elem_of_cons. tauto. Qed.

Lemma start_not_stop c : c ∈ start_stop -> c ∉ stop_codons -> c = "atg".
Proof. unfold stop_codons, start_stop. rewrite !elem_of_cons. tauto. Qed.

(** The loop that builds [W_dict], over any list of codons. *)
Lemma make_W_dict_list self (l : list string) :
  complete self -> Forall (fun c => c ∈ codons) l ->
  mapM (fun codon =>
          W ← get_W s_rows self codon;
          match W with
          | Some W => Ok (codon, W)
          | None => Err TypeError
          end)
       (filter (fun codon => codon ∉ ["atg"; "taa"; "tag"; "tga"]) l) =
  Ok (omap (fun codon =>
              match get_W s_rows self codon with
              | Ok (Some W) => Some (codon, W)
              | _ => None
              end)
           (filter (fun codon => codon ∉ stop_codons) l)).
Proof.
  intros Hself. induction 1 as [|c l Hc _ IH]; [done|].
  set (P4 := fun codon : string => codon ∉ ["atg"; "taa"; "tag"; "tga"]) in *.
  set (P3 := fun codon : string => codon ∉ stop_codons) in *.
  destruct (decide (c ∈ start_stop)) as [Hss|Hss].
  - rewrite (filter_cons_False P4).
    2: { unfold P4. rewrite start_stop_set_w_dict. auto. }
    destruct (decide (c ∈ stop_codons)) as [Hstop|Hstop].
    + rewrite (filter_cons_False P3); [done|]. unfold P3. auto.
    + rewrite (filter_cons_True P3) by done. cbn [omap list_omap].
      by rewrite (get_W_start_stop self c Hss).
  - rewrite (filter_cons_True P4) by (by apply start_stop_set_w_dict).
    rewrite (filter_cons_True P3) by (by intros ?%start_stop_stop).
    destruct (get_W_number self c Hself Hc Hss) as [W HW].
    cbn [mapM omap list_omap]. rewrite HW, IH. done.
Qed.

Lemma make_W_dict_raw self :
  complete self -> make_W_dict s_rows self = Ok (raw_weights s_rows self).
Proof.
  intros Hself. rewrite make_W_dict_unfold. apply make_W_dict_list; [done|].
  by apply Forall_forall.
Qed.

Lemma raw_weights_keys self c :
  complete self ->
  c ∈ (raw_weights s_rows self).*1 <-> c ∈ sense_codons /\ c <> "atg".
Proof.
  intros Hself. unfold raw_weights. rewrite list_elem_of_fmap. split.
  - intros ([c' W] & -> & (c'' & Hin & Hget)%list_elem_of_omap). cbn.
    destruct (get_W s_rows self c'') as [[W'|]|] eqn:HW; simplify_eq.
    split; [done|]. intros ->.
    rewrite get_W_start_stop in HW; [done|].
    unfold start_stop. apply elem_of_cons. by left.
  - intros [Hin Hatg].
    pose proof Hin as [Hstop Hc]%list_elem_of_filter.
    assert (Hss : c ∉ start_stop).
    { intros Hss. by apply Hatg, start_not_stop. }
    destruct (get_W_number self c Hself Hc Hss) as [W HW].
    exists (c, W). split; [done|]. apply list_elem_of_omap.
    exists c. by rewrite HW.
Qed.

Lemma raw_weights_NoDup self : NoDup (raw_weights s_rows self).*1.
Proof.
  assert (Hsub : forall l,
             (omap (fun codon =>
                      match get_W s_rows self codon with
                      | Ok (Some W) => Some (codon, W)
                      | _ => None
                      end) l).*1 `sublist_of` l).
  { induction l as [|c l IH]; [done|]. cbn [omap list_omap].
    destruct (get_W s_rows self c) as [[W|]|]; cbn;
      [by apply sublist_skip | by apply sublist_cons..]. }
  apply (sublist_NoDup _ sense_codons); [|apply Hsub].
  apply NoDup_filter, (bool_decide_unpack _). by vm_compute.
Qed.

End WeightProperties.

(** ** Normalised weights *)

Section Normalisation.
Context {R : Type} `{NumLaws R}.
Local Open Scope num_scope.
Implicit Types (x y M : R) (l : list R) (Ws : list (string * R)).

Lemma is_zero_true x : is_zero x = true <-> x = 0.
Proof. apply eqb_eq. Qed.

Lemma is_zero_false x : is_zero x = false <-> x <> 0.
Proof. rewrite <-is_zero_true. by destruct (is_zero x). Qed.

Lemma positive_nonzero x : (x >? 0) = true -> x <> 0.
Proof. intros Hx ->. by rewrite gtb_irrefl in Hx. Qed.

Lemma nonneg_cases x : (0 >? x) = false -> x = 0 \/ (x >? 0) = true.
Proof.
  intros Hx. destruct (decide (is_zero x = true)) as [Hz|Hz].
  - left. by apply is_zero_true.
  - right. apply gtb_total; [|done]. intros Heq. apply Hz, is_zero_true.
    by symmetry.
Qed.

Lemma max_loop_spec l m (seen : list R) :
  m ∈ seen -> (forall z, z ∈ seen -> (z >? m) = false) ->
  is_max (foldl (fun m y => if y >? m then y else m) m l) (seen ++ l).
Proof.
  revert m seen. induction l as [|y l IH]; intros m seen Hm Hseen.
  { by rewrite app_nil_r. }
  rewrite cons_middle, app_assoc. cbn [foldl]. apply IH.
  - destruct (y >? m); rewrite elem_of_app, list_elem_of_singleton; auto.
  - intros z [Hz| ->%list_elem_of_singleton]%elem_of_app.
    + destruct (y >? m) eqn:Hy; [|by apply Hseen].
      destruct (z >? y) eqn:Hzy; [|done].
      by rewrite <-(Hseen z Hz), (gtb_trans z y m).
    + destruct (y >? m) eqn:Hy; [apply gtb_irrefl|done].
Qed.

Lemma py_max_spec l :
  l <> [] -> exists M, py_max l = Ok M /\ is_max M l.
Proof.
  destruct l as [|x l]; [done|]. intros _. eexists. split; [done|].
  apply (max_loop_spec l x [x]); [by apply list_elem_of_singleton|].
  intros z ->%list_elem_of_singleton. apply gtb_irrefl.
Qed.

Lemma mapM_truediv Ws M :
  M <> 0 ->
  mapM (fun kv => w ← truediv kv.2 M; Ok (kv.1, w)) Ws =
  Ok ((fun kv => (kv.1, kv.2 / M)) <$> Ws).
Proof.
  intros HM. apply is_zero_false in HM.
  induction Ws as [|[c W] Ws IH]; [done|].
  cbn. rewrite IH. unfold truediv. by rewrite HM.
Qed.

Lemma filter_nonzero_positive l :
  Forall (fun x => x = 0 \/ (x >? 0) = true) l ->
  filter (fun w => is_zero w = false) l = filter (fun x => (x >? 0) = true) l.
Proof.
  induction 1 as [|x l Hx _ IH]; [done|].
  destruct Hx as [->|Hx].
  - rewrite !filter_cons_False; [done|..].
    + by rewrite gtb_irrefl.
    + rewrite (proj2 (is_zero_true 0)); done.
  - rewrite !filter_cons_True; [by rewrite IH|done|].
    by apply is_zero_false, positive_nonzero.
Qed.

Lemma lookup_values (h : string * R -> R) Ws :
  NoDup Ws.*1 ->
  let w : gmap string R := list_to_map ((fun kv => (kv.1, h kv)) <$> Ws) in
  (forall c, is_Some (w !! c) <-> c ∈ Ws.*1) /\
  (forall c W, (c, W) ∈ Ws -> w !! c = Some (h (c, W))).
Proof.
  intros Hnd w.
  assert (Hkeys : ((fun kv => (kv.1, h kv)) <$> Ws).*1 = Ws.*1).
  { rewrite <-list_fmap_compose. by apply list_fmap_ext. }
  split.
  - intros c. rewrite <-Hkeys, <-not_eq_None_Some.
    unfold w. rewrite <-not_elem_of_list_to_map.
    destruct (decide (c ∈ ((fun kv => (kv.1, h kv)) <$> Ws).*1)); tauto.
  - intros c W Hin. apply elem_of_list_to_map_1; [by rewrite Hkeys|].
    by apply (list_elem_of_fmap_2 (fun kv => (kv.1, h kv)) _ (c, W)).
Qed.

(** What the statements after the construction of [W_dict] compute, on a
    table without negative entries that has a non-zero entry. *)
Lemma normalise_spec Ws :
  NoDup Ws.*1 ->
  Forall (fun cW => (0 >? cW.2) = false) Ws ->
  Exists (fun cW => cW.2 <> 0) Ws ->
  exists M w,
    is_max M Ws.*2 /\ (M >? 0) = true /\
    normalise Ws = Ok w /\
    (forall c, is_Some (w !! c) <-> c ∈ Ws.*1) /\
    (forall c W,
        (c, W) ∈ Ws ->
        (W / M <> 0 -> w !! c = Some (W / M)) /\
        (W / M = 0 ->
         exists g,
           geo_mean (filter (fun x => (x >? 0) = true)
                            ((fun cW => cW.2 / M) <$> Ws)) = Ok g /\
           w !! c = Some g)).
Proof.
  intros Hnd Hnonneg Hsome.
  assert (Hne : Ws.*2 <> []).
  { destruct Ws; [by apply Exists_nil in Hsome|done]. }
  destruct (py_max_spec Ws.*2 Hne) as (M & HM & Hin & Hge).
  assert (Hnn : forall W, W ∈ Ws.*2 -> (0 >? W) = false).
  { intros W ([c W'] & -> & HcW)%list_elem_of_fmap.
    by apply (proj1 (Forall_forall _ _) Hnonneg (c, W')). }
  assert (HMpos : (M >? 0) = true).
  { apply Exists_exists in Hsome as ([c W] & HcW & HW0). cbn in HW0.
    assert (HW : W ∈ Ws.*2) by apply (list_elem_of_fmap_2 snd _ (c, W)), HcW.
    destruct (nonneg_cases W (Hnn W HW)) as [->|HWpos]; [done|].
    destruct (nonneg_cases M (Hnn M Hin)) as [->|]; [|done].
    by rewrite (Hge W HW) in HWpos. }
  pose proof (positive_nonzero M HMpos) as HM0.
  set (N := (fun kv => (kv.1, kv.2 / M)) <$> Ws).
  assert (Hvals : N.*2 = (fun cW => cW.2 / M) <$> Ws).
  { unfold N. by rewrite <-list_fmap_compose. }
  assert (Hcases : Forall (fun x => x = 0 \/ (x >? 0) = true) N.*2).
  { rewrite Hvals. apply Forall_fmap. eapply Forall_impl; [exact Hnonneg|].
    intros [c W] HW. cbn in *.
    destruct (nonneg_cases W HW) as [->|HWpos].
    - left. by apply div_zero.
    - right. by apply div_pos. }
  exists M. unfold normalise. rewrite HM. cbn [mbind res_bind].
  rewrite (mapM_truediv Ws M HM0). fold N. cbn [mbind res_bind].
  destruct (0 <? length (filter (fun w => is_zero w = true) N.*2))%nat
    eqn:Hzeros.
  - rewrite (filter_nonzero_positive _ Hcases), Hvals.
    assert (Hroot : (M / M) ∈ filter (fun x => (x >? 0) = true)
                                     ((fun cW => cW.2 / M) <$> Ws)).
    { apply list_elem_of_filter. split; [by apply div_pos|].
      destruct (proj1 (list_elem_of_fmap _ _ _) Hin) as ([c W] & HMeq & HcW).
      cbn in HMeq. rewrite HMeq at 1.
      by apply (list_elem_of_fmap_2 (fun cW => cW.2 / M) _ (c, W)). }
    remember (filter (fun x => (x >? 0) = true)
                     ((fun cW => cW.2 / M) <$> Ws)) as pos eqn:Hpos.
    destruct pos as [|g0 gs]; [by apply elem_of_nil in Hroot|].
    unfold geo_mean at 1, product. cbn [mbind res_bind].
    set (g := (foldl mul g0 gs ** (1 / of_nat (length (g0 :: gs))))).
    eexists. split; [done|]. split; [done|]. split; [reflexivity|].
    unfold N. rewrite <-list_fmap_compose.
    rewrite (list_fmap_ext _
               (fun kv => (kv.1, if is_zero (kv.2 / M) then g else kv.2 / M))).
    2: { intros i [c W] _. cbn. by destruct (is_zero (W / M)). }
    destruct (lookup_values
                (fun kv => if is_zero (kv.2 / M) then g else kv.2 / M) Ws Hnd)
      as [Hdom Hlook].
    split; [exact Hdom|]. intros c W HcW. rewrite (Hlook c W HcW). cbn.
    split.
    + intros Hnz%is_zero_false. by rewrite Hnz.
    + intros Hz%is_zero_true. rewrite Hz. exists g. split; [|done].
      unfold geo_mean, product. done.
  - eexists. split; [done|]. split; [done|]. split; [reflexivity|].
    unfold N.
    destruct (lookup_values (fun kv => kv.2 / M) Ws Hnd) as [Hdom Hlook].
    split; [exact Hdom|]. intros c W HcW. rewrite (Hlook c W HcW). cbn.
    split; [done|]. intros Hz. exfalso.
    apply Nat.ltb_ge in Hzeros.
    assert (Hmem : (W / M) ∈ filter (fun w => is_zero w = true) N.*2).
    { apply list_elem_of_filter. split; [by apply is_zero_true|].
      rewrite Hvals. by apply (list_elem_of_fmap_2 (fun cW => cW.2 / M) _ (c, W)). }
    destruct (filter _ N.*2); [by apply elem_of_nil in Hmem|]. cbn in Hzeros. lia.
Qed.

End Normalisation.

(** ** The sense codons *)

Lemma sense_codons_61 : length sense_codons = 61%nat.
Proof. by vm_compute. Qed.


(** ** The operations of the calculator *)

Section OperationProperties.
Context {R : Type} `{PyNum R}.
Local Open Scope num_scope.
Variable s_rows : list (string * R).
Implicit Types (self : TAI R) (counts extra : list (string * R)).

Lemma update_tGCN counts self :
  tGCN_dict (update s_rows counts self).2 = set_tGCN_dict counts.
Proof. unfold update. by destruct (set_w_dict _ _). Qed.

Lemma init_update counts self :
  init s_rows counts = Ok self -> update s_rows counts blank = (Ok (), self).
Proof.
  unfold init. destruct (update _ _ _) as [[[]|e] st]; by intros [= ->].
Qed.

Lemma init_returned counts :
  (update s_rows counts blank).1 = Ok () ->
  init s_rows counts = Ok (update s_rows counts blank).2.
Proof.
  unfold init. by destruct (update _ _ _) as [[[]|e] st].
Qed.

Lemma get_W_tGCN self self' codon :
  tGCN_dict self = tGCN_dict self' ->
  get_W s_rows self codon = get_W s_rows self' codon.
Proof. intros Heq. rewrite !get_W_unfold. by rewrite Heq. Qed.

Lemma make_W_dict_tGCN self self' :
  tGCN_dict self = tGCN_dict self' ->
  make_W_dict s_rows self = make_W_dict s_rows self'.
Proof.
  intros Heq. rewrite !make_W_dict_unfold. apply mapM_res_ext.
  intros codon. by rewrite (get_W_tGCN self self' codon Heq).
Qed.

Lemma set_w_dict_tGCN self self' :
  tGCN_dict self = tGCN_dict self' ->
  set_w_dict s_rows self = set_w_dict s_rows self'.
Proof.
  intros Heq. rewrite !set_w_dict_unfold.
  by rewrite (make_W_dict_tGCN self self' Heq).
Qed.

Lemma update_returned counts self self' :
  update s_rows counts self = (Ok (), self') ->
  exists w,
    set_w_dict s_rows
      {| tGCN_dict := set_tGCN_dict counts; w_dict := w_dict self |} = Ok w /\
    self' = {| tGCN_dict := set_tGCN_dict counts; w_dict := w |}.
Proof.
  unfold update. destruct (set_w_dict _ _) as [w|e]; intros [= <-]. eauto.
Qed.

Lemma update_raised counts self e self' :
  update s_rows counts self = (Err e, self') ->
  self' = {| tGCN_dict := set_tGCN_dict counts; w_dict := w_dict self |}.
Proof.
  unfold update. destruct (set_w_dict _ _) as [w|e']; by intros [= <- <-].
Qed.

Lemma update_fresh counts self self' :
  update s_rows counts self = (Ok (), self') -> fresh s_rows self'.
Proof.
  intros (w & Hw & ->)%update_returned. unfold fresh.
  etrans; [|exact Hw]. by apply set_w_dict_tGCN.
Qed.

Lemma add_tRNA_genes_w extra lvl self :
  w_dict (add_tRNA_genes extra lvl self).2 = w_dict self.
Proof. unfold add_tRNA_genes. by destruct (add_loop _ _ _). Qed.

Lemma add_tRNA_genes_tGCN extra lvl self :
  ((add_tRNA_genes extra lvl self).1, tGCN_dict (add_tRNA_genes extra lvl self).2)
  = add_loop extra lvl (tGCN_dict self).
Proof. unfold add_tRNA_genes. by destruct (add_loop _ _ _). Qed.

(** C8: after [update], whether it returned or raised in [set_w_dict], and
    after a construction, the tGCN table has an entry for each of the 64
    anticodons, 0 for those the argument does not list; nothing of the
    previous table survives. *)
Theorem tGCN_after_update counts self :
  let tGCN := tGCN_dict (update s_rows counts self).2 in
  (length codons = 64%nat /\ NoDup codons) /\
  (forall a, a ∈ codons -> is_Some (tGCN !! a)) /\
  (forall a, a ∈ codons -> a ∉ normal_keys counts -> tGCN !! a = Some 0) /\
  (forall k, k ∉ codons -> k ∉ normal_keys counts -> tGCN !! k = None) /\
  (forall self0, tGCN_dict (update s_rows counts self0).2 = tGCN) /\
  (forall st, init s_rows counts = Ok st -> tGCN_dict st = tGCN) /\
  (counts = [] -> forall a, a ∈ codons -> tGCN !! a = Some 0).
Proof.
  cbn zeta. rewrite update_tGCN.
  split; [split; [by vm_compute | apply (bool_decide_unpack _); by vm_compute]|].
  repeat split.
  - intros a Ha. by apply set_tGCN_dict_codon.
  - intros a Ha Hout. by rewrite set_tGCN_dict_lookup, decide_True.
  - intros k Hk Hout. by rewrite set_tGCN_dict_lookup, decide_False.
  - intros self0. apply update_tGCN.
  - intros st Hst%init_update. by rewrite <-(update_tGCN counts blank), Hst.
  - intros -> a Ha. rewrite set_tGCN_dict_lookup, decide_True; [done..|].
    apply not_elem_of_nil.
Qed.

(** C10: on a calculator constructed from keys that all normalise to one of
    the 64 triplets, [add_tRNA_genes] raises [KeyError] as soon as its
    argument lists a key that does not. *)
Theorem add_tRNA_genes_unknown_key counts self extra expr_level item :
  init s_rows counts = Ok self ->
  Forall (fun k => k ∈ codons) (normal_keys counts) ->
  item ∈ extra ->
  normalize item.1 ∉ codons ->
  (add_tRNA_genes extra expr_level self).1 = Err KeyError.
Proof.
  intros Hinit%init_update Hkeys Hin Hbad.
  pose proof (update_tGCN counts blank) as Htab. rewrite Hinit in Htab.
  pose proof (add_tRNA_genes_tGCN extra expr_level self) as Hrun.
  apply (f_equal fst) in Hrun. cbn in Hrun. rewrite Hrun.
  eapply add_loop_unknown; [|done..].
  intros k. cbn in Htab. rewrite Htab. by apply set_tGCN_dict_keys.
Qed.

(** C7: when every listed key is a known anticodon, [add_tRNA_genes]
    returns, adds [count * expr_level] to the entry of each listed
    anticodon (once per item listing it) and leaves every other entry as
    it was; a single item with [count * expr_level = 1] adds exactly 1. *)
Theorem add_tRNA_genes_adds extra expr_level self :
  (forall item, item ∈ extra ->
                is_Some (tGCN_dict self !! normalize item.1)) ->
  exists self',
    add_tRNA_genes extra expr_level self = (Ok (), self') /\
    (forall a, tGCN_dict self' !! a =
               added extra expr_level a <$> tGCN_dict self !! a) /\
    (forall a, a ∉ normal_keys extra ->
               tGCN_dict self' !! a = tGCN_dict self !! a) /\
    (forall key count n,
        NoDup (normal_keys extra) -> (key, count) ∈ extra ->
        tGCN_dict self !! normalize key = Some n ->
        tGCN_dict self' !! normalize key = Some (n + count * expr_level)) /\
    (forall key count n,
        extra = [(key, count)] -> count * expr_level = 1 ->
        tGCN_dict self !! normalize key = Some n ->
        tGCN_dict self' !! normalize key = Some (n + 1)).
Proof.
  intros Hknown.
  destruct (add_loop_known extra expr_level (tGCN_dict self) Hknown)
    as (tGCN' & Hrun & Hlook).
  exists {| tGCN_dict := tGCN'; w_dict := w_dict self |}.
  split; [unfold add_tRNA_genes; by rewrite Hrun|].
  split; [exact Hlook|]. cbn. repeat split.
  - intros a Hout. rewrite Hlook. unfold added.
    rewrite filter_key_absent by done. by destruct (tGCN_dict self !! a).
  - intros key count n Hnd Hin Hn. rewrite Hlook, Hn. unfold added.
    by rewrite (filter_key_unique extra key count).
  - intros key count n -> Hone Hn. rewrite Hlook, Hn. unfold added.
    rewrite filter_cons_True by done. cbn. by rewrite Hone.
Qed.

(** What [get_tai] evaluates, in the arithmetic of the program: the
    weights [w_dict[c]] of the filtered codon list of the sequence are
    looked up in order, their product is formed from left to right, and
    the product is raised to 1 over their number.  It returns that number
    whenever every codon of the list has a weight and the list is not
    empty. *)
Lemma get_tai_geo_mean self seq :
  get_tai self seq =
    (ws ← mapM (subscript (w_dict self)) (sequence_to_codons seq);
     geo_mean ws) /\
  (forall w ws,
      Forall2 (fun codon w => w_dict self !! codon = Some w)
              (sequence_to_codons seq) (w :: ws) ->
      get_tai self seq = Ok (geometric_mean w ws)).
Proof.
  assert (Heq : get_tai self seq =
                (ws ← mapM (subscript (w_dict self)) (sequence_to_codons seq);
                 geo_mean ws)).
  { unfold get_tai. by rewrite (proj2 (get_sequence_codons_spec seq)). }
  split; [done|]. intros w ws Hws. rewrite Heq.
  rewrite (mapM_res_Forall2 _ _ (w :: ws)); [done|].
  eapply Forall2_impl; [exact Hws|].
  intros codon w' Hw. unfold subscript. by rewrite Hw.
Qed.

(** C9, as the code has it: when no codon is left after filtering,
    [get_tai] raises the [TypeError] of [reduce] on an empty list. *)
Theorem get_tai_empty self seq :
  get_sequence_codons seq = [] -> get_tai self seq = Err TypeError.
Proof. intros Hnil. unfold get_tai. by rewrite Hnil. Qed.

(** C2, as the code has it: a constructed instance and an instance on which
    [update] returned hold the [w_dict] that [set_w_dict] derives from
    their [tGCN_dict]; [add_tRNA_genes] leaves [w_dict] as it was. *)
Theorem w_dict_after :
  (forall counts st, init s_rows counts = Ok st -> fresh s_rows st) /\
  (forall (o : op R) self self',
      run s_rows o self = (Ok (), self') ->
      match o with
      | Update _ => fresh s_rows self'
      | AddGenes _ _ => w_dict self' = w_dict self
      end).
Proof.
  split.
  - intros counts st Hst%init_update. by eapply update_fresh.
  - intros [counts|extra lvl] self self'; cbn [run]; intros Hrun.
    + by eapply update_fresh.
    + by rewrite <-(add_tRNA_genes_w extra lvl self), Hrun.
Qed.

(** C3, as the code has it: an operation that raises leaves [w_dict] as it
    was, but not [tGCN_dict].  [update] raises in [set_w_dict], after the
    table has been replaced; [add_tRNA_genes] raises [KeyError] at the
    first unknown key, after the additions of the items before it. *)
Theorem raised_state (o : op R) self e self' :
  run s_rows o self = (Err e, self') ->
  w_dict self' = w_dict self /\
  match o with
  | Update counts => tGCN_dict self' = set_tGCN_dict counts
  | AddGenes extra expr_level =>
      e = KeyError /\
      exists applied bad rest,
        extra = (applied ++ bad :: rest)%list /\
        add_tRNA_genes applied expr_level self = (Ok (), self') /\
        tGCN_dict self' !! normalize bad.1 = None
  end.
Proof.
  destruct o as [counts|extra lvl]; cbn [run]; intros Hrun.
  - by rewrite (update_raised _ _ _ _ Hrun).
  - split; [by rewrite <-(add_tRNA_genes_w extra lvl self), Hrun|].
    pose proof (add_tRNA_genes_tGCN extra lvl self) as Hloop.
    rewrite Hrun in Hloop. cbn in Hloop. symmetry in Hloop.
    destruct (add_loop_failed _ _ _ _ _ Hloop)
      as (-> & applied & bad & rest & -> & Happ & Hbad).
    split; [done|]. exists applied, bad, rest. repeat split; [|done].
    unfold add_tRNA_genes. rewrite Happ. f_equal.
    apply (f_equal snd) in Hrun. cbn in Hrun. rewrite <-Hrun.
    unfold add_tRNA_genes. by destruct (add_loop _ _ _).
Qed.

End OperationProperties.

(** * Further properties *)

(** ** The alphabet: codons, complements, reverse complements *)

Lemma complement_invalid (c : ascii) :
  ~ valid_base c -> complement (Str.lower_ascii c) = Err KeyError.
Proof.
  destruct c as [[] [] [] [] [] [] [] []]; intros Hc;
    first [reflexivity
          | destruct Hc; apply (bool_decide_unpack _); vm_compute; exact I].
Qed.

(** [complement] has an entry for exactly the lower-case forms of the
    valid bases. *)
Lemma complement_outcome (c : ascii) :
  match complement (Str.lower_ascii c) with
  | Ok d => valid_base c /\ d ∈ bases
  | Err e => ~ valid_base c /\ e = KeyError
  end.
Proof.
  destruct (decide (c ∈ list_ascii_of_string "acgtuACGTU")) as [Hc|Hc].
  - rewrite (complement_lower c Hc). split; [done|].
    revert c Hc. apply valid_base_cases.
    repeat (constructor; [vm_compute; set_solver|]). constructor.
  - rewrite (complement_invalid c Hc). by split.
Qed.

Lemma complement_all_outcome (l : list ascii) :
  match complement_all (Str.lower_ascii <$> l) with
  | Ok ds => Forall valid_base l /\ ds = compl_base <$> l
  | Err e => ~ Forall valid_base l /\ e = KeyError
  end.
Proof.
  induction l as [|c l IH]; [by split|].
  cbn [fmap list_fmap complement_all].
  pose proof (complement_outcome c) as Hc. unfold compl_base at 1.
  destruct (complement (Str.lower_ascii c)) as [d|e]; cbn.
  - destruct (complement_all (Str.lower_ascii <$> l)) as [ds|e]; cbn.
    + destruct Hc as [Hc _], IH as [IH ->]. split; [by constructor|done].
    + destruct IH as [IH ->]. split; [|done].
      intros Hall. apply IH. by eapply Forall_inv_tail.
  - destruct Hc as [Hc ->]. split; [|done].
    intros Hall. apply Hc. by eapply Forall_inv.
Qed.

Lemma rev_compl_uracil (sequence : string) :
  rev_compl sequence true = Str.replace "t" "u" <$> rev_compl sequence false.
Proof.
  unfold rev_compl.
  by destruct (complement_all _) as [ds|e].
Qed.

Lemma rev_compl_invalid (sequence : string) (use_uracil : bool) :
  ~ valid_sequence sequence -> rev_compl sequence use_uracil = Err KeyError.
Proof.
  intros Hbad. unfold rev_compl, Str.reverse.
  rewrite lower_of_list, list_of_string_of.
  pose proof (complement_all_outcome (reverse (list_ascii_of_string sequence)))
    as Hout.
  destruct (complement_all _) as [ds|e]; cbn.
  - destruct Hout as [Hall _]. destruct Hbad.
    apply Forall_reverse in Hall. by rewrite reverse_involutive in Hall.
  - by destruct Hout as [_ ->].
Qed.

Lemma string_of_list_length (l : list ascii) :
  String.length (string_of_list_ascii l) = length l.
Proof. by rewrite string_length_list, list_of_string_of. Qed.

Lemma compl_base_bases (c : ascii) : valid_base c -> compl_base c ∈ bases.
Proof.
  intros Hc. pose proof (complement_outcome c) as Hout. unfold compl_base.
  destruct (complement (Str.lower_ascii c)) as [d|e]; [apply Hout|].
  by destruct Hout as [Hbad _].
Qed.

Lemma bases_valid (c : ascii) : c ∈ bases -> valid_base c.
Proof.
  revert c. apply Forall_forall. unfold valid_base.
  apply (bool_decide_unpack _). by vm_compute.
Qed.

(** The bases of an RNA sequence. *)
Lemma replace_t_u_bases (c : ascii) :
  c ∈ bases ->
  Str.replace_ascii "t" "u" c ∈ ["u"; "c"; "a"; "g"]%char /\
  valid_base (Str.replace_ascii "t" "u" c) /\
  compl_base (Str.replace_ascii "t" "u" c) = compl_base c.
Proof.
  revert c. apply Forall_forall. unfold valid_base.
  apply (bool_decide_unpack _). by vm_compute.
Qed.

(** X2: [rev_compl] returns on the valid sequences and raises [KeyError] on
    every other one; its result has the length of its argument and is
    made of the bases t, c, a, g, or of u, c, a, g with [use_uracil]. *)
Theorem rev_compl_outcome (sequence : string) (use_uracil : bool) :
  (valid_sequence sequence ->
   exists y,
     rev_compl sequence use_uracil = Ok y /\
     String.length y = String.length sequence /\
     Forall (fun c => c ∈ (if use_uracil then ["u"; "c"; "a"; "g"]%char
                           else bases))
            (list_ascii_of_string y)) /\
  (~ valid_sequence sequence -> rev_compl sequence use_uracil = Err KeyError).
Proof.
  split; [|apply rev_compl_invalid].
  intros Hx.
  assert (Hbases : Forall (fun c => c ∈ bases)
                     (compl_base <$> reverse (list_ascii_of_string sequence))).
  { apply Forall_fmap, Forall_reverse. eapply Forall_impl; [exact Hx|].
    intros c. apply compl_base_bases. }
  destruct use_uracil.
  - rewrite rev_compl_uracil, (rev_compl_valid sequence Hx). cbn.
    eexists. split; [done|]. unfold Str.replace.
    rewrite !list_of_string_of, string_of_list_length, !length_fmap.
    rewrite length_reverse, <-string_length_list. split; [done|].
    apply Forall_fmap. eapply Forall_impl; [exact Hbases|].
    intros c Hc. apply (replace_t_u_bases c Hc).
  - rewrite (rev_compl_valid sequence Hx).
    eexists. split; [done|].
    rewrite list_of_string_of, string_of_list_length, length_fmap.
    by rewrite length_reverse, <-string_length_list.
Qed.

(** X3: the reverse complement written as RNA is the DNA one with u for t,
    and [rev_compl] undoes it as it undoes the DNA one: the reverse
    complement of either is the normalised sequence. *)
Theorem rev_compl_uracil_round_trip (x : string) :
  valid_sequence x ->
  exists y,
    rev_compl x false = Ok y /\
    rev_compl x true = Ok (Str.replace "t" "u" y) /\
    valid_sequence (Str.replace "t" "u" y) /\
    rev_compl (Str.replace "t" "u" y) false = Ok (normalize x) /\
    rev_compl (Str.replace "t" "u" y) true
      = Ok (Str.replace "t" "u" (normalize x)).
Proof.
  intros Hx. eexists. split; [by apply rev_compl_valid|].
  split; [by rewrite rev_compl_uracil, (rev_compl_valid x Hx)|].
  set (l := list_ascii_of_string x) in *.
  assert (Hlist : list_ascii_of_string
                    (Str.replace "t" "u"
                       (string_of_list_ascii (compl_base <$> reverse l)))
                  = Str.replace_ascii "t" "u" <$> (compl_base <$> reverse l)).
  { unfold Str.replace. by rewrite !list_of_string_of. }
  assert (Hbases : Forall (fun c => c ∈ bases) (compl_base <$> reverse l)).
  { apply Forall_fmap, Forall_reverse. eapply Forall_impl; [exact Hx|].
    intros c. apply compl_base_bases. }
  assert (Hy : valid_sequence
                 (Str.replace "t" "u"
                    (string_of_list_ascii (compl_base <$> reverse l)))).
  { unfold valid_sequence. rewrite Hlist. apply Forall_fmap.
    eapply Forall_impl; [exact Hbases|]. intros c Hc.
    apply (replace_t_u_bases c Hc). }
  split; [exact Hy|].
  assert (Hback : rev_compl (Str.replace "t" "u"
                    (string_of_list_ascii (compl_base <$> reverse l))) false
                  = Ok (normalize x)).
  { rewrite (rev_compl_valid _ Hy), Hlist. f_equal.
    rewrite <-!fmap_reverse, reverse_involutive, <-!list_fmap_compose.
    unfold normalize, Str.replace, Str.lower.
    rewrite list_of_string_of, <-list_fmap_compose. f_equal.
    apply Forall_fmap_ext. eapply Forall_impl; [exact Hx|].
    intros c Hc. cbn.
    rewrite (proj2 (proj2 (replace_t_u_bases _ (compl_base_bases c Hc)))).
    by apply compl_base_twice. }
  split; [exact Hback|]. by rewrite rev_compl_uracil, Hback.
Qed.

Lemma bind_bases {A} (f : ascii -> list A) :
  bases ≫= f = (f "t" ++ f "c" ++ f "a" ++ f "g")%char%list.
Proof. cbn. by rewrite app_nil_r. Qed.

Lemma elem_of_codons (codon : string) :
  codon ∈ codons <->
  exists x y z, x ∈ bases /\ y ∈ bases /\ z ∈ bases /\ codon = triplet x y z.
Proof.
  rewrite codons_unfold. split.
  - intros (x & (y & (z & Hc & Hz)%list_elem_of_bind & Hy)%list_elem_of_bind
              & Hx)%list_elem_of_bind.
    apply list_elem_of_singleton in Hc. by exists x, y, z.
  - intros (x & y & z & Hx & Hy & Hz & ->).
    apply list_elem_of_bind. exists x. split; [|done].
    apply list_elem_of_bind. exists y. split; [|done].
    apply list_elem_of_bind. exists z. split; [|done].
    by apply list_elem_of_singleton.
Qed.

(** X1: the codons are the three-letter strings over t, c, a, g, each of
    them once: 64 strings. *)
Theorem codons_spec :
  (forall codon,
      codon ∈ codons <->
      exists x y z,
        x ∈ bases /\ y ∈ bases /\ z ∈ bases /\ codon = triplet x y z) /\
  NoDup codons /\ length codons = 64%nat.
Proof.
  split; [exact elem_of_codons|].
  split; [apply (bool_decide_unpack _)|]; vm_compute; reflexivity.
Qed.

Lemma compl_base_bases_twice (c : ascii) :
  c ∈ bases -> compl_base (compl_base c) = c.
Proof.
  revert c. apply Forall_forall.
  apply (bool_decide_unpack _). by vm_compute.
Qed.

Lemma rev_compl_pair (x y : ascii) :
  valid_base x -> valid_base y ->
  rev_compl (String x (String y EmptyString)) false
  = Ok (String (compl_base y) (String (compl_base x) EmptyString)).
Proof.
  intros Hx Hy. rewrite rev_compl_valid; [done|].
  apply Forall_cons_2; [done|]. apply Forall_cons_2; [done|]. apply Forall_nil_2.
Qed.

Lemma anticodons_returned (codon rc : string) :
  rev_compl (Str.slice 0 2 codon) false = Ok rc ->
  anticodons codon = Ok ((fun b => String b rc) <$> bases).
Proof. intros Hrc. unfold anticodons. by rewrite Hrc. Qed.

Lemma anticodons_triplet (x y z : ascii) :
  x ∈ bases -> y ∈ bases ->
  anticodons (triplet x y z)
  = Ok ((fun b => triplet b (compl_base y) (compl_base x)) <$> bases).
Proof.
  intros Hx%bases_valid Hy%bases_valid.
  by rewrite (anticodons_returned (triplet x y z) _ (rev_compl_pair x y Hx Hy)).
Qed.

(** X4: [anticodons] looks at the first two characters of its argument
    only.  When they are valid bases it returns the four strings made of
    a base t, c, a, g followed by their reverse complement; otherwise it
    raises [KeyError]. *)
Theorem anticodons_outcome (codon : string) :
  (valid_sequence (Str.slice 0 2 codon) ->
   exists rc,
     rev_compl (Str.slice 0 2 codon) false = Ok rc /\
     anticodons codon =
       Ok [String "t" rc; String "c" rc; String "a" rc; String "g" rc]) /\
  (~ valid_sequence (Str.slice 0 2 codon) -> anticodons codon = Err KeyError) /\
  (forall codon',
      Str.slice 0 2 codon' = Str.slice 0 2 codon ->
      anticodons codon' = anticodons codon).
Proof.
  split; [|split].
  - intros Hv. eexists. split; [by apply rev_compl_valid|].
    by rewrite (anticodons_returned _ _ (rev_compl_valid _ Hv)).
  - intros Hv. unfold anticodons.
    by rewrite (rev_compl_invalid _ false Hv).
  - intros codon' Heq. unfold anticodons. by rewrite Heq.
Qed.

(** X5: a codon has four distinct anticodons, each one of the 64 codons.
    The pairing goes both ways: the first two bases of the codon are the
    reverse complement of the last two bases of each anticodon; and the
    reverse complement of the whole codon is one of its anticodons. *)
Theorem anticodons_codon (codon : string) :
  codon ∈ codons ->
  exists acs,
    anticodons codon = Ok acs /\ length acs = 4%nat /\ NoDup acs /\
    Forall (fun a => a ∈ codons /\
                     rev_compl (Str.slice 1 2 a) false
                     = Ok (Str.slice 0 2 codon)) acs /\
    exists r, rev_compl codon false = Ok r /\ r ∈ acs.
Proof.
  intros (x & y & z & Hx & Hy & Hz & ->)%elem_of_codons.
  eexists. split; [by apply anticodons_triplet|].
  split; [done|]. split.
  - assert (Inj (=) (=) (fun b => triplet b (compl_base y) (compl_base x)))
      by (intros b b' Heq; by injection Heq).
    apply (NoDup_fmap_2 _). apply (bool_decide_unpack _). by vm_compute.
  - split.
    + apply Forall_fmap, Forall_forall. intros b Hb. split.
      * apply elem_of_codons. exists b, (compl_base y), (compl_base x).
        split; [done|].
        split; [by apply compl_base_bases, bases_valid|].
        split; [by apply compl_base_bases, bases_valid|done].
      * change (Str.slice 1 2 (triplet b (compl_base y) (compl_base x)))
          with (String (compl_base y) (String (compl_base x) EmptyString)).
        rewrite rev_compl_pair
          by (apply compl_base_valid; by apply bases_valid).
        by rewrite !compl_base_bases_twice.
    + exists (triplet (compl_base z) (compl_base y) (compl_base x)). split.
      * rewrite rev_compl_valid; [done|].
        repeat (apply Forall_cons_2; [by apply bases_valid|]).
        apply Forall_nil_2.
      * apply (list_elem_of_fmap_2
                 (fun b => triplet b (compl_base y) (compl_base x))).
        by apply compl_base_bases, bases_valid.
Qed.

(** ** The codons of a sequence *)

Lemma list_of_string_app (s1 s2 : string) :
  list_ascii_of_string (String.append s1 s2)
  = (list_ascii_of_string s1 ++ list_ascii_of_string s2)%list.
Proof.
  induction s1 as [|c s1 IH]; [done|].
  change (c :: list_ascii_of_string (String.append s1 s2)
          = c :: (list_ascii_of_string s1 ++ list_ascii_of_string s2)%list).
  by rewrite IH.
Qed.

Lemma windows3_app (q : nat) (l1 l2 : list ascii) :
  length l1 = (q * 3)%nat ->
  windows3 (l1 ++ l2) = (windows3 l1 ++ windows3 l2)%list.
Proof.
  revert l1. induction q as [|q IH]; intros [|a [|b [|c l1]]] Hlen;
    cbn in Hlen; try lia; [done|].
  cbn [app windows3]. rewrite IH by lia. done.
Qed.

Lemma windows3_length (l : list ascii) :
  length (windows3 l) = (length l / 3)%nat.
Proof.
  rewrite <-slices_windows3. by rewrite length_fmap, length_seq.
Qed.

Lemma windows3_Forall (P : ascii -> Prop) (l : list ascii) :
  Forall P l ->
  Forall (fun codon => exists a b c,
              codon = triplet a b c /\ P a /\ P b /\ P c) (windows3 l).
Proof.
  induction l as [|a|a b|a b c l IH] using list_ind3;
    try (intros _; apply Forall_nil_2).
  intros Hl. inversion_clear Hl as [|? ? Ha Hl'].
  inversion_clear Hl' as [|? ? Hb Hl].
  inversion_clear Hl as [|? ? Hc Hl'].
  cbn [windows3]. apply Forall_cons_2; [|by apply IH].
  by exists a, b, c.
Qed.

Lemma normalize_triplet (a b c : ascii) :
  let f := fun c => Str.replace_ascii "u" "t" (Str.lower_ascii c) in
  normalize (triplet a b c) = triplet (f a) (f b) (f c).
Proof. done. Qed.

Lemma normalize_pointwise (g : ascii -> ascii) (s : string) :
  (forall c,
      Str.replace_ascii "u" "t" (Str.lower_ascii (g c))
      = Str.replace_ascii "u" "t" (Str.lower_ascii c)) ->
  normalize (string_of_list_ascii (g <$> list_ascii_of_string s)) = normalize s.
Proof.
  intros Hg. unfold normalize, Str.replace, Str.lower.
  rewrite !list_of_string_of, <-!list_fmap_compose. f_equal.
  apply list_fmap_ext. intros _ c _. apply Hg.
Qed.

Lemma normalize_lower (s : string) : normalize (Str.lower s) = normalize s.
Proof.
  apply normalize_pointwise. intros c.
  by destruct c as [[] [] [] [] [] [] [] []].
Qed.

Lemma normalize_replace_u_t (s : string) :
  normalize (Str.replace "u" "t" s) = normalize s.
Proof.
  apply normalize_pointwise. intros c.
  by destruct c as [[] [] [] [] [] [] [] []].
Qed.

Lemma normalize_replace_t_u (s : string) :
  normalize (Str.replace "t" "u" s) = normalize s.
Proof.
  apply normalize_pointwise. intros c.
  by destruct c as [[] [] [] [] [] [] [] []].
Qed.

Lemma normalize_normalize (s : string) : normalize (normalize s) = normalize s.
Proof.
  unfold normalize at 2. by rewrite normalize_replace_u_t, normalize_lower.
Qed.

Lemma get_sequence_codons_normalize (seq seq' : string) :
  normalize seq' = normalize seq ->
  get_sequence_codons seq' = get_sequence_codons seq.
Proof. intros Heq. unfold get_sequence_codons. by rewrite Heq. Qed.

Lemma normal_base (c : ascii) :
  valid_base c -> Str.replace_ascii "u" "t" (Str.lower_ascii c) ∈ bases.
Proof.
  revert c. apply valid_base_cases.
  apply (bool_decide_unpack _). by vm_compute.
Qed.

Lemma sequence_to_codons_app (s1 s2 : string) (q : nat) :
  String.length s1 = (q * 3)%nat ->
  sequence_to_codons (String.append s1 s2)
  = (sequence_to_codons s1 ++ sequence_to_codons s2)%list.
Proof.
  intros Hlen. unfold sequence_to_codons.
  rewrite !normalize_list, list_of_string_app, fmap_app.
  rewrite (windows3_app q), filter_app; [done|].
  by rewrite length_fmap, <-string_length_list.
Qed.

Lemma sequence_to_codons_short (s : string) :
  (String.length s < 3)%nat -> sequence_to_codons s = [].
Proof.
  intros Hlen. unfold sequence_to_codons.
  assert (Hw : length (windows3 (list_ascii_of_string (normalize s))) = 0%nat).
  { rewrite windows3_length, normalize_list, length_fmap, <-string_length_list.
    by apply Nat.div_small. }
  apply nil_length_inv in Hw. by rewrite Hw.
Qed.

Lemma sequence_to_codons_valid (seq : string) :
  valid_sequence seq ->
  Forall (fun codon => codon ∈ codons) (sequence_to_codons seq).
Proof.
  intros Hv. unfold sequence_to_codons.
  assert (Hall : Forall (fun c => c ∈ bases)
                        (list_ascii_of_string (normalize seq))).
  { rewrite normalize_list. apply Forall_fmap.
    eapply Forall_impl; [exact Hv|]. intros c. apply normal_base. }
  apply windows3_Forall in Hall.
  apply Forall_forall. intros codon [_ Hin]%list_elem_of_filter.
  apply (proj1 (Forall_forall _ _) Hall) in Hin
    as (a & b & c & Heq & Ha & Hb & Hc).
  apply elem_of_codons. by exists a, b, c.
Qed.

Lemma sequence_to_codons_shape (seq : string) :
  Forall (fun codon => String.length codon = 3%nat /\
                       normalize codon = codon /\
                       codon ∉ start_stop)
         (sequence_to_codons seq).
Proof.
  unfold sequence_to_codons.
  apply Forall_forall. intros codon [Hrm Hin]%list_elem_of_filter.
  assert (Hall : Forall (fun c => Str.replace_ascii "u" "t"
                                    (Str.lower_ascii c) = c)
                        (list_ascii_of_string (normalize seq))).
  { rewrite normalize_list. apply Forall_fmap, Forall_true. intros c. cbn.
    by destruct c as [[] [] [] [] [] [] [] []]. }
  apply windows3_Forall in Hall.
  apply (proj1 (Forall_forall _ _) Hall) in Hin
    as (a & b & c & Heq & Ha & Hb & Hc).
  split; [by rewrite Heq|]. split; [|exact Hrm].
  by rewrite Heq, normalize_triplet, Ha, Hb, Hc.
Qed.

Lemma sequence_to_codons_codon (codon : string) :
  String.length codon = 3%nat -> normalize codon = codon ->
  codon ∉ start_stop ->
  sequence_to_codons codon = [codon].
Proof.
  intros Hlen Hnorm Hrm. unfold sequence_to_codons. rewrite Hnorm.
  destruct codon as [|a [|b [|c [|d rest]]]]; try discriminate Hlen.
  change (windows3 (list_ascii_of_string (String a (String b (String c "")))))
    with [triplet a b c].
  by rewrite (filter_cons_True (fun codon => codon ∉ start_stop)
                (triplet a b c) [] Hrm).
Qed.

Lemma sequence_to_codons_join (l : list string) :
  Forall (fun codon => String.length codon = 3%nat /\
                       normalize codon = codon /\
                       codon ∉ start_stop) l ->
  sequence_to_codons (String.concat "" l) = l.
Proof.
  induction 1 as [|codon l (Hlen & Hnorm & Hrm) _ IH]; [done|].
  destruct l as [|codon' l].
  - by apply sequence_to_codons_codon.
  - change (String.concat "" (codon :: codon' :: l))
      with (String.append codon (String.concat "" (codon' :: l))).
    rewrite (sequence_to_codons_app _ _ 1 Hlen), IH.
    by rewrite (sequence_to_codons_codon codon Hlen Hnorm Hrm).
Qed.


(** X7: the codons are read in frame from the first character on.  After a
    part whose length is a multiple of 3 the codons of the rest follow;
    fewer than three trailing characters are dropped; and an atg or a
    stop codon in frame is skipped, the codons after it are kept. *)
Theorem get_sequence_codons_app (s1 s2 : string) :
  (String.length s1 mod 3 = 0)%nat ->
  get_sequence_codons (String.append s1 s2)
  = (get_sequence_codons s1 ++ get_sequence_codons s2)%list /\
  ((String.length s2 < 3)%nat ->
   get_sequence_codons (String.append s1 s2) = get_sequence_codons s1) /\
  (forall codon,
      codon ∈ codons_to_remove ->
      get_sequence_codons (String.append s1 (String.append codon s2))
      = (get_sequence_codons s1 ++ get_sequence_codons s2)%list).
Proof.
  intros Hmod.
  assert (Hlen : String.length s1 = (String.length s1 / 3 * 3)%nat).
  { pose proof (Nat.div_mod_eq (String.length s1) 3). lia. }
  rewrite !(proj1 (get_sequence_codons_spec _)).
  split; [by eapply sequence_to_codons_app|]. split.
  - intros Hshort.
    rewrite (sequence_to_codons_app _ _ _ Hlen).
    by rewrite (sequence_to_codons_short s2 Hshort), app_nil_r.
  - intros codon Hcodon.
    rewrite (proj1 (get_sequence_codons_spec _)).
    rewrite (sequence_to_codons_app _ _ _ Hlen). f_equal.
    unfold codons_to_remove in Hcodon.
    rewrite !elem_of_union, !elem_of_singleton in Hcodon.
    destruct Hcodon as [[[-> | ->] | ->] | ->];
      by rewrite (sequence_to_codons_app _ _ 1).
Qed.

(** X23: the codons that [get_sequence_codons] returns, joined into one
    string, are read back as the same codons. *)
Theorem get_sequence_codons_join (seq : string) :
  get_sequence_codons (String.concat "" (get_sequence_codons seq))
  = get_sequence_codons seq.
Proof.
  rewrite !(proj1 (get_sequence_codons_spec _)).
  apply sequence_to_codons_join, sequence_to_codons_shape.
Qed.

(** X8: the case of the letters and the alphabet (u or t) of a sequence
    do not matter: its codons, and so its index on any instance, are
    those of the sequence in lower case, with t for u, or with u for t. *)
Theorem spelling_invariance {R} `{PyNum R} (seq seq' : string) :
  seq' ∈ [Str.lower seq; Str.replace "u" "t" seq; Str.replace "t" "u" seq;
          normalize seq] ->
  get_sequence_codons seq' = get_sequence_codons seq /\
  forall self : TAI R, get_tai self seq' = get_tai self seq.
Proof.
  intros Hseq.
  assert (Heq : normalize seq' = normalize seq).
  { rewrite !elem_of_cons, elem_of_nil in Hseq.
    destruct Hseq as [-> | [-> | [-> | [-> | []]]]].
    - apply normalize_lower.
    - apply normalize_replace_u_t.
    - apply normalize_replace_t_u.
    - apply normalize_normalize. }
  apply get_sequence_codons_normalize in Heq.
  split; [done|]. intros self. unfold get_tai. by rewrite Heq.
Qed.

(** ** The tables, key by key *)

Lemma res_bind_ok {A B} (f : A -> res B) (a : A) : (Ok a ≫= f) = f a.
Proof. reflexivity. Qed.

Lemma normalize_keys :
  Forall (fun k => normalize k = k) codons /\
  Forall (fun k => normalize k = k) pairing_keys.
Proof. split; apply (bool_decide_unpack _); vm_compute; reflexivity. Qed.

Section TableLookup.
Context {R : Type} `{PyNum R}.
Local Open Scope num_scope.

Lemma assign_lookup (items : list (string * R)) (d : gmap string R) k :
  foldl (fun d item => <[normalize item.1 := item.2]> d) d items !! k =
  match last_value items k with
  | Some v => Some v
  | None => d !! k
  end.
Proof.
  unfold last_value.
  induction items as [|item items IH] using rev_ind; [done|].
  rewrite foldl_app, filter_app. cbn [foldl].
  destruct (decide (normalize item.1 = k)) as [Hk|Hk].
  - rewrite (filter_cons_True (fun item => normalize item.1 = k) item [] Hk).
    by rewrite filter_nil, last_snoc, Hk, lookup_insert_eq.
  - rewrite (filter_cons_False (fun item => normalize item.1 = k) item [] Hk).
    by rewrite filter_nil, app_nil_r, lookup_insert_ne.
Qed.

Lemma last_value_unique (items : list (string * R)) key v :
  NoDup (normal_keys items) -> (key, v) ∈ items ->
  last_value items (normalize key) = Some v.
Proof.
  intros Hnd Hin. unfold last_value.
  by rewrite (filter_key_unique items key v Hnd Hin).
Qed.

Lemma last_value_absent (items : list (string * R)) k :
  k ∉ normal_keys items -> last_value items k = None.
Proof.
  intros Hk. unfold last_value. by rewrite (filter_key_absent items k Hk).
Qed.

Lemma load_s_dict_value (rows : list (string * R)) (k : string) :
  load_s_dict rows !! k =
  match last_value rows k with
  | Some s => Some s
  | None => if decide (k ∈ pairing_keys) then Some 1 else None
  end.
Proof.
  unfold load_s_dict. rewrite fill_lookup, assign_lookup, lookup_empty.
  by destruct (last_value rows k).
Qed.

Lemma set_tGCN_dict_value (counts : list (string * R)) (k : string) :
  set_tGCN_dict counts !! k =
  match last_value counts k with
  | Some n => Some n
  | None => if decide (k ∈ codons) then Some 0 else None
  end.
Proof.
  unfold set_tGCN_dict. rewrite fill_lookup, assign_lookup, lookup_empty.
  by destruct (last_value counts k).
Qed.

Lemma last_value_key (items : list (string * R)) k v :
  last_value items k = Some v -> exists key, normalize key = k.
Proof.
  unfold last_value. destruct (last _) as [item|] eqn:Hl; [|done]. intros _.
  apply last_Some_elem_of, list_elem_of_filter in Hl as [Hk _].
  by exists item.1.
Qed.

(** X9: the table of s values holds, under each pairing, the value of the
    last row of the file that names it (in any case, with u or t); a
    pairing of a codon base with t, c, a, g, i or l that no row names has
    the value 1; and there is no other entry. *)
Theorem load_s_dict_lookup (rows : list (string * R)) (k : string) :
  load_s_dict rows !! k =
  match last_value rows k with
  | Some s => Some s
  | None => if decide (k ∈ pairing_keys) then Some 1 else None
  end.
Proof.
  unfold load_s_dict. rewrite fill_lookup, assign_lookup, lookup_empty.
  by destruct (last_value rows k).
Qed.

(** X10: [set_tGCN_dict] stores each count under its normalised key.  When
    several keys of the argument normalise to the same anticodon the one
    listed last wins: the counts are not added up.  Keys that are no
    anticodons are stored as well. *)
Theorem set_tGCN_dict_listed (counts : list (string * R)) :
  (forall k,
      set_tGCN_dict counts !! k =
      match last_value counts k with
      | Some n => Some n
      | None => if decide (k ∈ codons) then Some 0 else None
      end) /\
  (forall key n,
      NoDup (normal_keys counts) -> (key, n) ∈ counts ->
      set_tGCN_dict counts !! normalize key = Some n) /\
  (forall key n earlier,
      set_tGCN_dict (earlier ++ [(key, n)]) !! normalize key = Some n).
Proof.
  split; [exact (set_tGCN_dict_value counts)|]. split.
  - intros key n Hnd Hin.
    by rewrite set_tGCN_dict_value, (last_value_unique counts key n Hnd Hin).
  - intros key n earlier. unfold set_tGCN_dict.
    rewrite fill_lookup, assign_lookup. unfold last_value.
    rewrite filter_app.
    rewrite (filter_cons_True (fun item => normalize item.1 = normalize key)
               (key, n) [] eq_refl).
    by rewrite filter_nil, last_snoc.
Qed.

(** X22: every key of the two tables is in lower case and has no u,
    whatever the spelling of the keys in the file of s values and in the
    counts: a lookup under a key in upper case, or with u, finds
    nothing. *)
Theorem table_keys_normalised :
  (forall (rows : list (string * R)) k,
      is_Some (load_s_dict rows !! k) -> normalize k = k) /\
  (forall (counts : list (string * R)) k,
      is_Some (set_tGCN_dict counts !! k) -> normalize k = k) /\
  (forall (counts : list (string * R)) key,
      normalize key <> key -> set_tGCN_dict counts !! key = None).
Proof.
  assert (Hlisted : forall (items : list (string * R)) k v,
             last_value items k = Some v -> normalize k = k).
  { intros items k v [key <-]%last_value_key. apply normalize_normalize. }
  assert (Htable : forall (counts : list (string * R)) k,
             is_Some (set_tGCN_dict counts !! k) -> normalize k = k).
  { intros counts k. rewrite set_tGCN_dict_value.
    destruct (last_value counts k) as [n|] eqn:Hn; [by eauto|].
    destruct (decide (k ∈ codons)) as [Hk|]; [|by intros []].
    intros _. by apply (proj1 (Forall_forall _ _) (proj1 normalize_keys)). }
  split; [|split].
  - intros rows k. rewrite load_s_dict_value.
    destruct (last_value rows k) as [v|] eqn:Hv; [by eauto|].
    destruct (decide (k ∈ pairing_keys)) as [Hk|]; [|by intros []].
    intros _. by apply (proj1 (Forall_forall _ _) (proj2 normalize_keys)).
  - exact Htable.
  - intros counts key Hkey. apply eq_None_not_Some.
    intros Hsome. by apply Hkey, (Htable counts).
Qed.

End TableLookup.

Section Pairing.
Context {R : Type} `{PyNum R}.
Local Open Scope num_scope.
Variable s_rows : list (string * R).

Lemma recognizer_key (z b : ascii) (P Q : Prop) `{Decision P, Decision Q} :
  z ∈ bases -> b ∈ bases ->
  String z (String (if decide P then "l"%char
                    else if decide Q then "i"%char else b)
                   EmptyString) ∈ pairing_keys.
Proof.
  intros Hz Hb. rewrite pairing_keys_unfold.
  apply list_elem_of_bind. exists z. split; [|done].
  apply list_elem_of_bind. eexists. split; [by apply list_elem_of_singleton|].
  apply elem_of_app.
  destruct (decide P); [right|destruct (decide Q); [right|by left]].
  - apply list_elem_of_further, list_elem_of_here.
  - apply list_elem_of_here.
Qed.

(** X11: [get_s] on a codon.  An anticodon that is not one of the four
    anticodons of the codon raises [ValueError].  For the four, the s value
    is read from the table under the third base of the codon followed by
    the first base of the anticodon, with i in the place of a, and l for
    the pair ata, cat; the table has that entry, so the call returns. *)
Theorem get_s_outcome (codon anticodon : string) :
  codon ∈ codons ->
  exists acs third_base,
    anticodons codon = Ok acs /\ Str.index codon 2 = Ok third_base /\
    (anticodon ∉ acs -> get_s s_rows codon anticodon = Err ValueError) /\
    (anticodon ∈ acs ->
     exists first_base s,
       Str.index anticodon 0 = Ok first_base /\
       get_s s_rows codon anticodon = Ok s /\
       s_dict s_rows !!
         String third_base
           (String (if decide ((codon, anticodon) = ("ata", "cat"))
                    then "l"%char
                    else if decide (first_base = "a"%char) then "i"%char
                         else first_base)
                   EmptyString) = Some s).
Proof.
  intros (x & y & z & Hx & Hy & Hz & ->)%elem_of_codons.
  exists ((fun b => triplet b (compl_base y) (compl_base x)) <$> bases), z.
  split; [by apply anticodons_triplet|]. split; [done|]. split.
  - intros Hnot.
    rewrite get_s_unfold, (anticodons_triplet x y z Hx Hy), res_bind_ok.
    by rewrite decide_False.
  - intros Hin.
    rewrite get_s_unfold, (anticodons_triplet x y z Hx Hy), res_bind_ok.
    rewrite decide_True by done.
    apply list_elem_of_fmap in Hin as (b & -> & Hb).
    exists b.
    change (Str.index (triplet x y z) 2) with (Ok z).
    change (Str.index (triplet b (compl_base y) (compl_base x)) 0)
      with (Ok b).
    rewrite !res_bind_ok. cbv zeta.
    destruct (load_s_dict_complete s_rows _
                (recognizer_key z b
                   ((triplet x y z, triplet b (compl_base y) (compl_base x))
                    = ("ata", "cat"))
                   (b = "a"%char) Hz Hb)) as [s Hs].
    exists s. split; [done|]. split; [|exact Hs].
    unfold subscript, s_dict. by rewrite Hs.
Qed.

End Pairing.

(** ** What the weights depend on *)

Lemma foldlM_ext_in {A B} (f g : B -> A -> res B) (b : B) (l : list A) :
  (forall b a, a ∈ l -> f b a = g b a) -> foldlM f b l = foldlM g b l.
Proof.
  revert b. induction l as [|a l IH]; intros b Hfg; [done|].
  cbn [foldlM]. rewrite (Hfg b a) by apply list_elem_of_here.
  destruct (g b a) as [b'|e]; [|done]. rewrite res_bind_ok. apply IH.
  intros b'' a' Ha'. apply Hfg. by apply list_elem_of_further.
Qed.

Lemma mapM_res_ext_in {A B} (f g : A -> res B) (l : list A) :
  (forall x, x ∈ l -> f x = g x) -> mapM f l = mapM g l.
Proof.
  induction l as [|x l IH]; intros Hfg; [done|].
  cbn. rewrite (Hfg x) by apply list_elem_of_here.
  rewrite IH; [done|]. intros y Hy. apply Hfg. by apply list_elem_of_further.
Qed.

Lemma last_value_app {R} (l1 l2 : list (string * R)) k :
  last_value (l1 ++ l2) k =
  match last_value l2 k with
  | Some v => Some v
  | None => last_value l1 k
  end.
Proof.
  unfold last_value. rewrite filter_app.
  destruct (filter _ l2) as [|item l] using rev_ind; [by rewrite app_nil_r|].
  by rewrite app_assoc, !last_snoc.
Qed.

Section Frames.
Context {R : Type} `{PyNum R}.
Local Open Scope num_scope.
Variable s_rows : list (string * R).

Lemma get_W_agree (self self' : TAI R) codon acs :
  anticodons codon = Ok acs ->
  (forall a, a ∈ acs -> tGCN_dict self !! a = tGCN_dict self' !! a) ->
  get_W s_rows self codon = get_W s_rows self' codon.
Proof.
  intros Hacs Hagree. rewrite !get_W_unfold.
  destruct (decide (codon ∈ _)); [done|].
  destruct (decide (codon = "ata")); [done|].
  rewrite Hacs, !res_bind_ok.
  rewrite (foldlM_ext_in _
             (fun W anticodon =>
                s ← get_s s_rows codon anticodon;
                n ← subscript (tGCN_dict self') anticodon;
                Ok (W + (1 - s) * n)) 0 acs); [done|].
  intros W a Ha. unfold subscript. by rewrite (Hagree a Ha).
Qed.

Lemma set_w_dict_agree (self self' : TAI R) :
  (forall a, a ∈ codons -> tGCN_dict self !! a = tGCN_dict self' !! a) ->
  set_w_dict s_rows self = set_w_dict s_rows self'.
Proof.
  intros Hagree. rewrite !set_w_dict_normalise, !make_W_dict_unfold.
  rewrite (mapM_res_ext_in _
             (fun codon =>
                W ← get_W s_rows self' codon;
                match W with
                | Some W => Ok (codon, W)
                | None => Err TypeError
                end)); [done|].
  intros c [_ Hc]%list_elem_of_filter.
  destruct (codon_pairs s_rows c Hc) as (acs & Hacs & _ & Hall).
  rewrite (get_W_agree self self' c acs Hacs); [done|].
  intros a Ha. apply Hagree.
  by apply (proj1 (Forall_forall _ _) Hall) in Ha as [Ha _].
Qed.

Lemma update_outcome counts (self : TAI R) :
  (update s_rows counts self).1 =
  (fun _ => ()) <$>
    set_w_dict s_rows
      {| tGCN_dict := set_tGCN_dict counts; w_dict := w_dict self |}.
Proof. unfold update. by destruct (set_w_dict _ _). Qed.

Lemma update_w_dict counts (self : TAI R) :
  w_dict (update s_rows counts self).2 =
  match set_w_dict s_rows
          {| tGCN_dict := set_tGCN_dict counts; w_dict := w_dict self |} with
  | Ok w => w
  | Err _ => w_dict self
  end.
Proof. unfold update. by destruct (set_w_dict _ _). Qed.

(** X12: the raw weight of a codon depends on the instance through the
    counts of the anticodons of that codon only: two instances that agree
    on them give the same result, an exception included. *)
Theorem get_W_frame (self self' : TAI R) (codon : string) (acs : list string) :
  anticodons codon = Ok acs ->
  Forall (fun a => tGCN_dict self !! a = tGCN_dict self' !! a) acs ->
  get_W s_rows self codon = get_W s_rows self' codon.
Proof.
  intros Hacs Hall. apply (get_W_agree self self' codon acs Hacs).
  by apply Forall_forall.
Qed.

(** X13: the weights depend on the counts of the 64 anticodons only.
    Entries of the tGCN table under other keys, which [set_tGCN_dict]
    stores when the caller lists them, change neither the outcome of
    [set_w_dict] nor that of [update], wherever they are listed. *)
Theorem set_w_dict_frame :
  (forall self self' : TAI R,
      (forall a, a ∈ codons -> tGCN_dict self !! a = tGCN_dict self' !! a) ->
      set_w_dict s_rows self = set_w_dict s_rows self') /\
  (forall (counts1 other counts2 : list (string * R)) (self : TAI R),
      Forall (fun k => k ∉ codons) (normal_keys other) ->
      (update s_rows (counts1 ++ other ++ counts2) self).1
      = (update s_rows (counts1 ++ counts2) self).1 /\
      w_dict (update s_rows (counts1 ++ other ++ counts2) self).2
      = w_dict (update s_rows (counts1 ++ counts2) self).2).
Proof.
  split; [exact set_w_dict_agree|].
  intros counts1 other counts2 self Hother.
  assert (Heq : set_w_dict s_rows
                  {| tGCN_dict := set_tGCN_dict (counts1 ++ other ++ counts2);
                     w_dict := w_dict self |}
                = set_w_dict s_rows
                    {| tGCN_dict := set_tGCN_dict (counts1 ++ counts2);
                       w_dict := w_dict self |}).
  { apply set_w_dict_agree. intros a Ha. cbn [tGCN_dict].
    unfold set_tGCN_dict. rewrite !fill_lookup, !assign_lookup.
    rewrite !last_value_app, (last_value_absent other a);
      [by destruct (last_value counts2 a)|].
    intros Hin. by apply (proj1 (Forall_forall _ _) Hother) in Hin. }
  rewrite !update_outcome, !update_w_dict, Heq. split; reflexivity.
Qed.

End Frames.

(** ** The instances a caller can hold *)

Lemma list_to_map_is_Some {V} (l : list (string * V)) (c : string) :
  is_Some ((list_to_map l : gmap string V) !! c) <-> c ∈ l.*1.
Proof.
  rewrite <-not_eq_None_Some, <-not_elem_of_list_to_map.
  split; [apply dec_stable|]. by intros Hin Hnot.
Qed.

Lemma mapM_res_fst {A B} (f : A -> res (string * B)) (g : A -> string)
      (l : list A) (ys : list (string * B)) :
  (forall x y, f x = Ok y -> y.1 = g x) ->
  mapM f l = Ok ys -> ys.*1 = g <$> l.
Proof.
  intros Hf. revert ys. induction l as [|x l IH]; intros ys Hys.
  - cbn in Hys. by injection Hys as <-.
  - cbn in Hys. destruct (f x) as [y|e] eqn:Hy; [|done].
    destruct (mapM f l) as [ys'|e]; [|done].
    cbn in Hys. injection Hys as <-.
    cbn. by rewrite (Hf x y Hy), (IH ys' eq_refl).
Qed.

Lemma mapM_res_cons {A B} (f : A -> res B) (x : A) (l : list A) :
  mapM f (x :: l) = (y ← f x; ys ← mapM f l; Ok (y :: ys)).
Proof. reflexivity. Qed.

Lemma subscript_Some {V} (d : gmap string V) k v :
  d !! k = Some v -> subscript d k = Ok v.
Proof. unfold subscript. by intros ->. Qed.

Lemma subscript_None {V} (d : gmap string V) k :
  d !! k = None -> subscript d k = Err KeyError.
Proof. unfold subscript. by intros ->. Qed.

Lemma mapM_subscript_missing {V} (d : gmap string V) (l : list string) :
  Exists (fun k => d !! k = None) l ->
  mapM (subscript d) l = Err KeyError.
Proof.
  induction l as [|k l IH]; intros HE; [by apply Exists_nil in HE|].
  rewrite mapM_res_cons.
  destruct (d !! k) as [v|] eqn:Hk;
    [|by rewrite (subscript_None d k Hk)].
  rewrite (subscript_Some d k v Hk).
  apply Exists_cons in HE as [HE|HE]; [congruence|].
  by rewrite (IH HE).
Qed.

Lemma mapM_subscript_known {V} (d : gmap string V) (l : list string) :
  Forall (fun k => is_Some (d !! k)) l ->
  exists vs, mapM (subscript d) l = Ok vs /\ length vs = length l.
Proof.
  induction 1 as [|k l [v Hk] _ (vs & Hvs & Hlen)]; [by exists []|].
  exists (v :: vs). rewrite mapM_res_cons, (subscript_Some d k v Hk), Hvs.
  split; [done|]. cbn. by rewrite Hlen.
Qed.

Section Reachable.
Context {R : Type} `{PyNum R}.
Local Open Scope num_scope.
Variable s_rows : list (string * R).

Lemma make_W_dict_keys (self : TAI R) Ws :
  make_W_dict s_rows self = Ok Ws ->
  Ws.*1 = filter (fun codon => codon ∉ ["atg"; "taa"; "tag"; "tga"]) codons.
Proof.
  rewrite make_W_dict_unfold. intros HWs.
  apply (mapM_res_fst _ id) in HWs; [by rewrite list_fmap_id in HWs|].
  intros c y. destruct (get_W s_rows self c) as [[W|]|e]; try done.
  rewrite res_bind_ok. by intros [= <-].
Qed.

Lemma normalise_keys (Ws : list (string * R)) w :
  normalise Ws = Ok w -> forall c, is_Some (w !! c) <-> c ∈ Ws.*1.
Proof.
  unfold normalise. destruct (py_max Ws.*2) as [M|e]; [|done].
  rewrite res_bind_ok.
  destruct (mapM _ Ws) as [ws|e] eqn:Hws; [|done]. rewrite res_bind_ok.
  apply (mapM_res_fst _ fst) in Hws.
  2: { intros kv y. unfold truediv. destruct (is_zero M); [done|].
       rewrite res_bind_ok. by intros [= <-]. }
  intros Hw c. rewrite <-Hws.
  destruct (0 <? _)%nat.
  - destruct (geo_mean _) as [g|e]; [|done].
    rewrite !res_bind_ok in Hw. injection Hw as <-.
    rewrite list_to_map_is_Some, <-list_fmap_compose.
    rewrite (list_fmap_ext _ fst ws); [done|].
    intros _ kv _. cbn. by destruct (is_zero kv.2).
  - rewrite res_bind_ok in Hw. injection Hw as <-.
    apply list_to_map_is_Some.
Qed.

Lemma set_w_dict_keys (self : TAI R) w :
  set_w_dict s_rows self = Ok w ->
  forall c, is_Some (w !! c) <-> c ∈ codons /\ c ∉ start_stop.
Proof.
  rewrite set_w_dict_normalise.
  destruct (make_W_dict s_rows self) as [Ws|e] eqn:HWs; [|done].
  rewrite res_bind_ok. intros Hw c.
  rewrite (normalise_keys Ws w Hw), (make_W_dict_keys self Ws HWs).
  rewrite list_elem_of_filter, start_stop_set_w_dict. tauto.
Qed.

Lemma add_loop_keys (items : list (string * R)) lvl t k :
  is_Some ((add_loop items lvl t).2 !! k) <-> is_Some (t !! k).
Proof.
  revert t. induction items as [|item items IH]; intros t; [done|].
  cbn [add_loop]. cbv zeta.
  destruct (t !! normalize item.1) as [n|] eqn:Hn; [|done].
  rewrite IH. destruct (decide (k = normalize item.1)) as [->|Hk].
  - rewrite lookup_insert_eq, Hn. split; intros _; by eexists.
  - by rewrite lookup_insert_ne.
Qed.

Lemma add_loop_other (items : list (string * R)) lvl t a :
  a ∉ normal_keys items -> (add_loop items lvl t).2 !! a = t !! a.
Proof.
  revert t. induction items as [|[key count] items IH]; intros t Ha; [done|].
  rewrite normal_keys_cons in Ha. apply not_elem_of_cons in Ha as [Hne Ha].
  cbn [add_loop]. cbv zeta. cbn [fst snd].
  destruct (t !! normalize key) as [n|]; [|done].
  rewrite IH by done. by rewrite lookup_insert_ne.
Qed.

Lemma add_loop_app (e1 e2 : list (string * R)) lvl t :
  add_loop (e1 ++ e2) lvl t =
  match add_loop e1 lvl t with
  | (Ok _, t') => add_loop e2 lvl t'
  | (Err e, t') => (Err e, t')
  end.
Proof.
  revert t. induction e1 as [|item e1 IH]; intros t; [done|].
  cbn [app add_loop]. cbv zeta.
  destruct (t !! normalize item.1) as [n|]; [apply IH|done].
Qed.

Lemma add_tRNA_genes_table extra lvl (self : TAI R) :
  tGCN_dict (add_tRNA_genes extra lvl self).2
  = (add_loop extra lvl (tGCN_dict self)).2.
Proof.
  unfold add_tRNA_genes. by destruct (add_loop extra lvl (tGCN_dict self)).
Qed.

Lemma add_tRNA_genes_complete extra lvl (self : TAI R) :
  complete self -> complete (add_tRNA_genes extra lvl self).2.
Proof.
  intros Hc a Ha. rewrite add_tRNA_genes_table. apply add_loop_keys.
  by apply Hc.
Qed.

Lemma update_complete counts (self : TAI R) :
  complete (update s_rows counts self).2.
Proof. intros a Ha. rewrite update_tGCN. by apply set_tGCN_dict_codon. Qed.

Lemma update_w_dict_keys counts (self : TAI R) :
  (forall c, is_Some (w_dict self !! c) <-> c ∈ codons /\ c ∉ start_stop) ->
  forall c, is_Some (w_dict (update s_rows counts self).2 !! c)
            <-> c ∈ codons /\ c ∉ start_stop.
Proof.
  intros Hself. unfold update.
  destruct (set_w_dict s_rows _) as [w|e] eqn:Hw; [|exact Hself].
  cbn [snd w_dict]. by eapply set_w_dict_keys.
Qed.

Lemma reachable_inv (self : TAI R) :
  reachable s_rows self ->
  complete self /\
  forall c, is_Some (w_dict self !! c) <-> c ∈ codons /\ c ∉ start_stop.
Proof.
  induction 1 as [counts self Hinit|o self _ [Hc Hw]
                 |counts self _ [Hc Hw]|self w _ [Hc Hw] Hset].
  - apply init_update, update_returned in Hinit as (w & Hw & ->). split.
    + intros a Ha. by apply set_tGCN_dict_codon.
    + by eapply set_w_dict_keys.
  - destruct o as [counts|extra lvl]; cbn [run].
    + split; [apply update_complete|by apply update_w_dict_keys].
    + split; [by apply add_tRNA_genes_complete|].
      by rewrite add_tRNA_genes_w.
  - split; [|exact Hw]. intros a Ha. by apply set_tGCN_dict_codon.
  - split; [exact Hc|]. by eapply set_w_dict_keys.
Qed.

(** X14: on every instance that the constructor has returned, whatever
    calls of [update], [add_tRNA_genes], [set_tGCN_dict] and [set_w_dict]
    it then went through and whether they returned or raised, the tGCN
    table has an entry for each of the 64 anticodons and the weight table
    has an entry for exactly the 60 codons that are neither atg nor a stop
    codon. *)
Theorem reachable_tables (self : TAI R) :
  reachable s_rows self ->
  (forall a, a ∈ codons -> is_Some (tGCN_dict self !! a)) /\
  (forall c, is_Some (w_dict self !! c) <-> c ∈ codons /\ c ∉ start_stop) /\
  length (filter (fun c => c ∉ start_stop) codons) = 60%nat.
Proof.
  intros Hr. destruct (reachable_inv self Hr) as [Hc Hw].
  split; [exact Hc|]. split; [exact Hw|]. vm_compute. reflexivity.
Qed.

(** X15: [get_tai] on an instance that the constructor has returned,
    whatever calls of the other methods followed.  A codon of the
    sequence that is not one of the 64, for instance one with an n, makes
    it raise [KeyError]; when every codon is one of the 64 and at least
    one is left after atg and the stop codons are removed, it returns a
    number.  A sequence of bases has only codons among the 64. *)
Theorem get_tai_outcome (self : TAI R) (seq : string) :
  reachable s_rows self ->
  (Exists (fun codon => codon ∉ codons) (get_sequence_codons seq) ->
   get_tai self seq = Err KeyError) /\
  (Forall (fun codon => codon ∈ codons) (get_sequence_codons seq) ->
   get_sequence_codons seq <> [] ->
   exists tai, get_tai self seq = Ok tai) /\
  (valid_sequence seq -> get_sequence_codons seq <> [] ->
   exists tai, get_tai self seq = Ok tai).
Proof.
  intros Hr. destruct (reachable_inv self Hr) as [_ Hw].
  unfold get_tai. rewrite (proj2 (get_sequence_codons_spec seq)).
  rewrite (proj1 (get_sequence_codons_spec seq)).
  assert (Hreturns :
            Forall (fun codon => codon ∈ codons) (sequence_to_codons seq) ->
            sequence_to_codons seq <> [] ->
            exists tai,
              (ws ← mapM (subscript (w_dict self)) (sequence_to_codons seq);
               geo_mean ws) = Ok tai).
  { intros Hall Hne.
    destruct (mapM_subscript_known (w_dict self) (sequence_to_codons seq))
      as (ws & -> & Hlen).
    - apply Forall_forall. intros c Hc. apply Hw. split.
      + by apply (proj1 (Forall_forall _ _) Hall).
      + by apply list_elem_of_filter in Hc as [Hc _].
    - rewrite res_bind_ok. destruct ws as [|w ws]; [|by eexists].
      by destruct (sequence_to_codons seq). }
  split; [|split].
  - intros HE. rewrite mapM_subscript_missing; [done|].
    eapply Exists_impl; [exact HE|]. intros c Hc. cbn.
    apply eq_None_not_Some. intros [Hin _]%Hw. by apply Hc.
  - exact Hreturns.
  - intros Hv. apply Hreturns. by apply sequence_to_codons_valid.
Qed.

(** X16: [add_tRNA_genes] never creates or deletes an entry of the tGCN
    table and never changes an entry whose key it is not given, whether
    it returns or raises; a table with all 64 anticodons keeps them.  The
    index of every sequence is what it was before the call. *)
Theorem add_tRNA_genes_frame extra expr_level (self : TAI R) :
  let self' := (add_tRNA_genes extra expr_level self).2 in
  (forall k, is_Some (tGCN_dict self' !! k) <-> is_Some (tGCN_dict self !! k)) /\
  (forall a, a ∉ normal_keys extra ->
             tGCN_dict self' !! a = tGCN_dict self !! a) /\
  (complete self -> complete self') /\
  (forall seq, get_tai self' seq = get_tai self seq).
Proof.
  intros self'. unfold self'. split; [|split; [|split]].
  - intros k. rewrite add_tRNA_genes_table. apply add_loop_keys.
  - intros a Ha. rewrite add_tRNA_genes_table. by apply add_loop_other.
  - apply add_tRNA_genes_complete.
  - intros seq. unfold get_tai. by rewrite add_tRNA_genes_w.
Qed.

(** X17: adding genes in two calls is adding them in one: the call on
    the items of one dictionary followed by those of another behaves as
    the call on the first and, when that returns, the call on the second.
    An empty dictionary changes nothing. *)
Theorem add_tRNA_genes_app (extra1 extra2 : list (string * R)) expr_level
        (self : TAI R) :
  add_tRNA_genes (extra1 ++ extra2) expr_level self =
  match add_tRNA_genes extra1 expr_level self with
  | (Ok _, self') => add_tRNA_genes extra2 expr_level self'
  | (Err e, self') => (Err e, self')
  end /\
  add_tRNA_genes [] expr_level self = (Ok (), self).
Proof.
  split; [|by destruct self].
  unfold add_tRNA_genes. rewrite add_loop_app.
  by destruct (add_loop extra1 expr_level (tGCN_dict self)) as [[[]|e] t'].
Qed.

(** X18: [update] does on any instance what the constructor does from
    nothing.  When the constructor returns an instance, [update] turns
    every instance into that one; when it raises, [update] raises the same
    exception, with the tGCN table replaced and the weights untouched. *)
Theorem update_as_init counts (self : TAI R) :
  match init s_rows counts with
  | Ok st => update s_rows counts self = (Ok (), st)
  | Err e =>
      update s_rows counts self
      = (Err e, {| tGCN_dict := set_tGCN_dict counts; w_dict := w_dict self |})
  end.
Proof.
  unfold init, update.
  rewrite (set_w_dict_tGCN s_rows
             {| tGCN_dict := set_tGCN_dict counts; w_dict := w_dict blank |}
             {| tGCN_dict := set_tGCN_dict counts; w_dict := w_dict self |}
             eq_refl).
  by destruct (set_w_dict s_rows _) as [w|e].
Qed.

End Reachable.

(** ** How [set_w_dict] fails *)

Lemma filter_all {A} (P : A -> Prop) `{forall x, Decision (P x)} (l : list A) :
  Forall P l -> filter P l = l.
Proof.
  induction 1 as [|x l Hx _ IH]; [done|].
  by rewrite (filter_cons_True P x l Hx), IH.
Qed.

Lemma filter_none {A} (P : A -> Prop) `{forall x, Decision (P x)}
      (l : list A) :
  Forall (fun x => ~ P x) l -> filter P l = [].
Proof.
  induction 1 as [|x l Hx _ IH]; [done|].
  by rewrite (filter_cons_False P x l Hx), IH.
Qed.

Section Failures.
Context {R : Type} `{PyNum R}.
Local Open Scope num_scope.
Variable s_rows : list (string * R).

Lemma mapM_truediv_raises (Ws : list (string * R)) M :
  is_zero M = true -> Ws <> [] ->
  mapM (fun kv => w ← truediv kv.2 M; Ok (kv.1, w)) Ws
  = Err ZeroDivisionError.
Proof.
  intros HM. destruct Ws as [|kv Ws]; [done|]. intros _.
  rewrite mapM_res_cons. unfold truediv. by rewrite HM.
Qed.

Lemma mapM_truediv_returns (Ws : list (string * R)) M :
  is_zero M = false ->
  mapM (fun kv => w ← truediv kv.2 M; Ok (kv.1, w)) Ws
  = Ok ((fun kv => (kv.1, kv.2 / M)) <$> Ws).
Proof.
  intros HM. induction Ws as [|kv Ws IH]; [done|].
  rewrite mapM_res_cons, IH. unfold truediv. by rewrite HM.
Qed.

Lemma normalise_cases (Ws : list (string * R)) :
  Ws <> [] ->
  exists M,
    py_max Ws.*2 = Ok M /\
    (is_zero M = true -> normalise Ws = Err ZeroDivisionError) /\
    (is_zero M = false ->
     (Forall (fun cW => is_zero (cW.2 / M) = true) Ws ->
      normalise Ws = Err TypeError) /\
     (Exists (fun cW => is_zero (cW.2 / M) = false) Ws ->
      exists w, normalise Ws = Ok w)).
Proof.
  intros Hne.
  assert (exists M, py_max Ws.*2 = Ok M) as [M Hmax].
  { destruct Ws as [|kv Ws']; [done|]. by eexists. }
  exists M. split; [exact Hmax|]. split.
  - intros HM. unfold normalise.
    by rewrite Hmax, res_bind_ok, (mapM_truediv_raises Ws M HM Hne).
  - intros HM.
    assert (Hvals : ((fun kv => (kv.1, kv.2 / M)) <$> Ws).*2
                    = (fun cW => cW.2 / M) <$> Ws)
      by by rewrite <-list_fmap_compose.
    split.
    + intros Hall. unfold normalise.
      rewrite Hmax, res_bind_ok, (mapM_truediv_returns Ws M HM), res_bind_ok.
      rewrite Hvals.
      rewrite (filter_all (fun w => is_zero w = true))
        by (by apply Forall_fmap).
      rewrite (filter_none (fun w => is_zero w = false)).
      * by destruct Ws.
      * apply Forall_fmap. eapply Forall_impl; [exact Hall|].
        intros cW Hz. cbn. by rewrite Hz.
    + intros HE. unfold normalise.
      rewrite Hmax, res_bind_ok, (mapM_truediv_returns Ws M HM), res_bind_ok.
      rewrite Hvals.
      destruct (0 <? _)%nat; [|by eexists].
      destruct (filter (fun w => is_zero w = false) _) as [|x xs] eqn:Hf;
        [|by eexists].
      apply Exists_exists in HE as (cW & Hin & Hz).
      assert (Hx : cW.2 / M ∈ filter (fun w => is_zero w = false)
                                     ((fun cW => cW.2 / M) <$> Ws)).
      { apply list_elem_of_filter. split; [done|].
        by apply (list_elem_of_fmap_2 (fun cW => cW.2 / M)). }
      rewrite Hf in Hx. by apply elem_of_nil in Hx.
Qed.

Lemma raw_weights_nonempty (self : TAI R) :
  complete self -> raw_weights s_rows self <> [].
Proof.
  intros Hc Hnil.
  assert (Hin : "ttt" ∈ (raw_weights s_rows self).*1).
  { apply raw_weights_keys; [done|]. split; [|done].
    apply (bool_decide_unpack _). vm_compute. exact I. }
  rewrite Hnil in Hin. by apply elem_of_nil in Hin.
Qed.

Lemma set_w_dict_cases (self : TAI R) :
  complete self ->
  exists M,
    py_max (raw_weights s_rows self).*2 = Ok M /\
    (is_zero M = true -> set_w_dict s_rows self = Err ZeroDivisionError) /\
    (is_zero M = false ->
     (Forall (fun cW => is_zero (cW.2 / M) = true) (raw_weights s_rows self) ->
      set_w_dict s_rows self = Err TypeError) /\
     (Exists (fun cW => is_zero (cW.2 / M) = false)
             (raw_weights s_rows self) ->
      exists w, set_w_dict s_rows self = Ok w)).
Proof.
  intros Hc.
  rewrite set_w_dict_normalise, (make_W_dict_raw s_rows self Hc), res_bind_ok.
  apply normalise_cases. by apply raw_weights_nonempty.
Qed.

Lemma set_w_dict_errors (self : TAI R) e :
  complete self -> set_w_dict s_rows self = Err e ->
  e = ZeroDivisionError \/ e = TypeError.
Proof.
  intros Hc. destruct (set_w_dict_cases self Hc) as (M & _ & Hz & Hnz).
  destruct (is_zero M).
  - rewrite (Hz eq_refl). intros [= <-]. by left.
  - destruct (Hnz eq_refl) as [Hall HE].
    destruct (Forall_Exists_dec
                (fun cW : string * R => is_zero (cW.2 / M) = true)
                (fun cW => is_zero (cW.2 / M) = false)
                (fun cW => sumbool_of_bool (is_zero (cW.2 / M)))
                (raw_weights s_rows self)) as [Hf|He].
    + rewrite (Hall Hf). intros [= <-]. by right.
    + destruct (HE He) as [w ->]. discriminate.
Qed.

Lemma update_raises counts (self : TAI R) e :
  (update s_rows counts self).1 = Err e ->
  set_w_dict s_rows
    {| tGCN_dict := set_tGCN_dict counts; w_dict := w_dict self |} = Err e.
Proof.
  rewrite update_outcome.
  destruct (set_w_dict _ _) as [w|e']; [discriminate|].
  intros [= ->]. reflexivity.
Qed.

Lemma init_raises counts e :
  init s_rows counts = Err e -> (update s_rows counts blank).1 = Err e.
Proof.
  unfold init. destruct (update _ _ _) as [[[]|e'] st]; [discriminate|].
  intros [= ->]. reflexivity.
Qed.

(** X19: how [set_w_dict] ends on a table that has all 64 anticodons.
    It raises [ZeroDivisionError] when the greatest raw weight is equal to
    0.  Otherwise every raw weight is divided by the greatest one; if every
    quotient is equal to 0, the geometric mean of no numbers is asked for
    and [TypeError] is raised; if not, it returns. *)
Theorem set_w_dict_outcome (self : TAI R) :
  complete self ->
  exists M,
    py_max (raw_weights s_rows self).*2 = Ok M /\
    (is_zero M = true -> set_w_dict s_rows self = Err ZeroDivisionError) /\
    (is_zero M = false ->
     (Forall (fun cW => is_zero (cW.2 / M) = true) (raw_weights s_rows self) ->
      set_w_dict s_rows self = Err TypeError) /\
     (Exists (fun cW => is_zero (cW.2 / M) = false)
             (raw_weights s_rows self) ->
      exists w, set_w_dict s_rows self = Ok w)).
Proof.
  intros Hc.
  rewrite set_w_dict_normalise, (make_W_dict_raw s_rows self Hc), res_bind_ok.
  apply normalise_cases. by apply raw_weights_nonempty.
Qed.

(** X20: whatever keys the dictionary that they are given has, anticodons
    or not, [update] and the constructor raise neither [KeyError] nor
    [ValueError] nor [IndexError]: every key that they look up in
    [tGCN_dict] and in [s_dict] is there, [get_s] is given anticodons of
    its codon only, and [max] a list that is not empty. *)
Theorem update_errors (counts : list (string * R)) :
  (forall (self : TAI R) e,
      (update s_rows counts self).1 = Err e ->
      e <> KeyError /\ e <> ValueError /\ e <> IndexError) /\
  (forall e,
      init s_rows counts = Err e ->
      e <> KeyError /\ e <> ValueError /\ e <> IndexError).
Proof.
  assert (Hupdate : forall (self : TAI R) e,
             (update s_rows counts self).1 = Err e ->
             e <> KeyError /\ e <> ValueError /\ e <> IndexError).
  { intros self e Herr%update_raises.
    assert (Hcases : e = ZeroDivisionError \/ e = TypeError).
    { refine (set_w_dict_errors _ e _ Herr).
      intros a Ha. by apply set_tGCN_dict_codon. }
    clear Herr. destruct Hcases as [-> | ->]; repeat split; discriminate. }
  split; [exact Hupdate|].
  intros e Herr%init_raises. exact (Hupdate blank e Herr).
Qed.

End Failures.

Section ZeroDivision.
Context {R : Type} `{NumLaws R}.
Local Open Scope num_scope.
Variable s_rows : list (string * R).

(** X21: with the arithmetic of an ordered field and raw weights that are
    not negative, [set_w_dict] on a table with all 64 anticodons raises
    [ZeroDivisionError] exactly when every raw weight is 0, as on a table
    of zero counts when the s value of the pairing al is 1. *)
Theorem set_w_dict_zero_division (self : TAI R) :
  complete self ->
  Forall (fun cW => (0 >? cW.2) = false) (raw_weights s_rows self) ->
  set_w_dict s_rows self = Err ZeroDivisionError <->
  Forall (fun cW => cW.2 = 0) (raw_weights s_rows self).
Proof.
  intros Hc Hnn. split.
  - intros Herr.
    assert (dec : forall cW : string * R, {cW.2 = 0} + {cW.2 <> 0}).
    { intros cW. destruct (is_zero cW.2) eqn:Hz.
      - left. by apply is_zero_true.
      - right. by apply is_zero_false. }
    destruct (Forall_Exists_dec _ _ dec (raw_weights s_rows self))
      as [Hall|HE]; [exact Hall|].
    rewrite set_w_dict_normalise, (make_W_dict_raw s_rows self Hc) in Herr.
    rewrite res_bind_ok in Herr.
    destruct (normalise_spec _ (raw_weights_NoDup s_rows self) Hnn HE)
      as (M & w & _ & _ & Hw & _).
    rewrite Hw in Herr. discriminate Herr.
  - intros Hall.
    destruct (set_w_dict_cases s_rows self Hc) as (M & Hmax & Hz & _).
    apply Hz, is_zero_true.
    destruct (py_max_spec (raw_weights s_rows self).*2) as (M' & HM' & Hin & _).
    { intros Hnil%fmap_nil_inv. by apply (raw_weights_nonempty s_rows self). }
    rewrite Hmax in HM'. injection HM' as <-.
    apply list_elem_of_fmap in Hin as (cW & -> & Hin).
    by apply (proj1 (Forall_forall _ _) Hall).
Qed.

End ZeroDivision.

(** ** The weight table *)



Section WeightTable.
Context {R : Type} `{PyNum R}.
Local Open Scope num_scope.
Variable s_rows : list (string * R).




End WeightTable.

(** ** The naive s values *)

Lemma complement_bases (c : ascii) :
  c ∈ bases -> complement c = Ok (compl_base c).
Proof.
  unfold bases. rewrite !elem_of_cons, elem_of_nil.
  intros [-> | [-> | [-> | [-> | []]]]]; reflexivity.
Qed.

Section NaiveSProperties.
Context {R : Type} `{PyNum R}.
Local Open Scope num_scope.

(** X24: [get_naive_s] raises [KeyError] unless its first argument is one
    of the strings t, u, a, c, g.  Of the four anticodons of a codon, with
    the third base of the codon and the first base of the anticodon as
    arguments, it returns 0 for the reverse complement of the codon and
    0.5 for the three others. *)
Theorem get_naive_s_spec (half : R) (self : TAI R) :
  (forall third_codon_base first_anticodon_base,
      third_codon_base ∉ ["t"; "u"; "a"; "c"; "g"] ->
      get_naive_s half self third_codon_base first_anticodon_base
      = Err KeyError) /\
  (forall codon acs anticodon,
      codon ∈ codons -> anticodons codon = Ok acs -> anticodon ∈ acs ->
      get_naive_s half self (Str.slice 2 1 codon) (Str.slice 0 1 anticodon)
      = Ok (if decide (rev_compl codon false = Ok anticodon) then 0
            else half)).
Proof.
  split.
  - intros third first Hthird. unfold get_naive_s.
    destruct third as [|x [|y rest]]; [done| |done].
    destruct (decide (x ∈ ["t"; "u"; "a"; "c"; "g"]%char)) as [Hx|Hx].
    + destruct Hthird. rewrite !elem_of_cons, elem_of_nil in Hx.
      rewrite !elem_of_cons, elem_of_nil.
      destruct Hx as [-> | [-> | [-> | [-> | [-> | []]]]]]; tauto.
    + unfold complement.
      rewrite !not_elem_of_cons in Hx. destruct Hx as (? & ? & ? & ? & ? & _).
      by rewrite !decide_False.
  - intros codon acs anticodon (x & y & z & Hx & Hy & Hz & ->)%elem_of_codons.
    rewrite (anticodons_triplet x y z Hx Hy). intros Hacs Hin.
    assert (Hlist : acs = (fun b => triplet b (compl_base y) (compl_base x))
                            <$> bases) by congruence.
    rewrite Hlist in Hin. apply list_elem_of_fmap in Hin as (b & -> & Hb).
    change (Str.slice 2 1 (triplet x y z)) with (String z EmptyString).
    change (Str.slice 0 1 (triplet b (compl_base y) (compl_base x)))
      with (String b EmptyString).
    unfold get_naive_s. rewrite (complement_bases z Hz), res_bind_ok.
    rewrite rev_compl_valid
      by (repeat (apply Forall_cons_2; [by apply bases_valid|]);
          apply Forall_nil_2).
    change (string_of_list_ascii
              (compl_base <$> reverse (list_ascii_of_string (triplet x y z))))
      with (triplet (compl_base z) (compl_base y) (compl_base x)).
    destruct (decide (String (compl_base z) EmptyString = String b EmptyString))
      as [Heq|Hne].
    + injection Heq as ->. by rewrite decide_True.
    + rewrite decide_False; [done|]. intros [= Heq]. by rewrite Heq in Hne.
Qed.

End NaiveSProperties.

(** ** Exact rational arithmetic satisfies the laws *)

Lemma Qc_eqb_eq (x y : Qc) : Exact.Qc_eqb x y = true <-> x = y.
Proof.
  unfold Exact.Qc_eqb. rewrite Z.eqb_eq. split.
  - intros Heq. by apply Qc_is_canon.
  - by intros ->.
Qed.

Lemma Qc_gtb_lt (x y : Qc) : Exact.Qc_gtb x y = true <-> (y < x)%Qc.
Proof. unfold Exact.Qc_gtb. by rewrite Z.ltb_lt. Qed.

Lemma Qc_gtb_nlt (x y : Qc) : Exact.Qc_gtb x y = false <-> ~ (y < x)%Qc.
Proof. rewrite <-Qc_gtb_lt. by destruct (Exact.Qc_gtb x y). Qed.

Global Instance exact_laws (pw : Qc -> Qc -> Qc) :
  @NumLaws Qc (Exact.num pw).
Proof.
  split; cbn.
  - apply Qc_eqb_eq.
  - intros x. apply Qc_gtb_nlt. intros Hx. by apply Qclt_not_eq in Hx.
  - intros x y z. rewrite !Qc_gtb_lt. intros Hxy Hyz. by eapply Qclt_trans.
  - intros x y Hne. rewrite Qc_gtb_nlt, Qc_gtb_lt.
    intros Hle%Qcnot_lt_le. by destruct (Qcle_lt_or_eq _ _ Hle).
  - intros y _. apply Qcmult_0_l.
  - intros x y. rewrite !Qc_gtb_lt. intros Hx Hy.
    apply Qcmult_pos_pos; [done|]. by apply Qcinv_pos.
Qed.

(** ** The calculator on an example *)

Section Example.
Variable pw : Qc -> Qc -> Qc.
Let ops : PyNum Qc := Exact.num pw.
Local Existing Instance ops.
Let calc : TAI Qc := Exact.calculator pw.

Lemma calculator_init : init Exact.s_half Exact.one_each = Ok calc.
Proof.
  assert (Hret : (update Exact.s_half Exact.one_each blank).1 = Ok ())
    by (vm_compute; reflexivity).
  unfold init, calc, Exact.calculator.
  by destruct (update _ _ _) as [[[]|e] st].
Qed.

Lemma calculator_complete : complete calc.
Proof.
  intros a Ha. unfold calc, Exact.calculator. rewrite update_tGCN.
  by apply set_tGCN_dict_codon.
Qed.

(** Every raw weight of the example is 2, except that of ata, 1/2. *)
Lemma calculator_raw_weights :
  (fun cW => (cW.1, this cW.2)) <$> raw_weights Exact.s_half calc =
  (fun c => (c, if decide (c = "ata") then (1 # 2)%Q else 2%Q))
    <$> filter (fun c => c <> "atg") sense_codons.
Proof. vm_compute. reflexivity. Qed.

Lemma calculator_w_dict :
  this <$> w_dict calc !! "tct" = Some 1%Q /\
  this <$> w_dict calc !! "ata" = Some (1 # 4)%Q.
Proof. split; vm_compute; reflexivity. Qed.

(** After [add_tRNA_genes({'aaa': 2}, 0.5)] the stored weight of tct is
    still 1, but [set_w_dict] would now give it 4/5. *)
Lemma stale_any_power :
  let self' := (add_tRNA_genes Exact.two_aaa Exact.half calc).2 in
  (add_tRNA_genes Exact.two_aaa Exact.half calc).1 = Ok () /\
  set_w_dict Exact.s_half self' <> Ok (w_dict self').
Proof.
  intros self'. split; [vm_compute; reflexivity|].
  pose (tct := fun r : res (gmap string Qc) =>
                 match r with
                 | Ok w => this <$> w !! "tct"
                 | Err _ => None
                 end).
  assert (H1 : tct (set_w_dict Exact.s_half self') = Some (4 # 5)%Q)
    by (vm_compute; reflexivity).
  assert (H2 : tct (Ok (w_dict self')) = Some 1%Q)
    by (vm_compute; reflexivity).
  intros Heq. rewrite Heq, H2 in H1. discriminate H1.
Qed.

(** [add_tRNA_genes({'aaa': 2, 'xyz': 1}, 0.5)] raises at xyz, after it
    has added 1 to the count of aaa. *)
Lemma partial_any_power :
  let self' := (add_tRNA_genes Exact.two_aaa_xyz Exact.half calc).2 in
  (add_tRNA_genes Exact.two_aaa_xyz Exact.half calc).1 = Err KeyError /\
  this <$> tGCN_dict calc !! "aaa" = Some 1%Q /\
  this <$> tGCN_dict self' !! "aaa" = Some 2%Q.
Proof. intros self'. split; [|split]; vm_compute; reflexivity. Qed.

(** When the s-value file has no row for al, the raw weight of ata is 0:
    [update({})] then raises [ZeroDivisionError] in [set_w_dict], and
    leaves the tGCN table replaced by zeros. *)
Lemma update_empty_raises :
  let self := (update Exact.s_no_al Exact.one_each blank).2 in
  let self' := (update Exact.s_no_al [] self).2 in
  (update Exact.s_no_al Exact.one_each blank).1 = Ok () /\
  (update Exact.s_no_al [] self).1 = Err ZeroDivisionError /\
  this <$> tGCN_dict self !! "aaa" = Some 1%Q /\
  this <$> tGCN_dict self' !! "aaa" = Some 0%Q.
Proof.
  intros self self'. split; [|split; [|split]]; vm_compute; reflexivity.
Qed.

End Example.

(** ** The index in binary64 arithmetic *)

Section Underflow.
Variable pw : float -> float -> float.
Let ops : PyNum float := Binary64.num pw.
Local Existing Instance ops.

(** C1, at the failing input.  The calculator is built from one gene per
    anticodon with every s value 0.5, in binary64 arithmetic, whatever
    the function [**] is; the sequence is ata repeated 538 times.  Each of
    its 538 codons has the weight 0.25.  [geo_mean] forms the product
    first: after 537 factors it is not 0, after 538 it is 0.  [get_tai]
    returns [0 ** (1/538)], which is 0 with the [pow] of C, while every
    weight is 0.25. *)
Theorem get_tai_underflow :
  init Binary64.s_half Binary64.one_each = Ok (Binary64.calculator pw) /\
  get_sequence_codons (repeated "ata" 538) = replicate 538 "ata" /\
  w_dict (Binary64.calculator pw) !! "ata" = Some 0.25%float /\
  is_zero <$> product (replicate 537 0.25%float) = Ok false /\
  product (replicate 538 0.25%float) = Ok 0%float /\
  get_tai (Binary64.calculator pw) (repeated "ata" 538)
    = Ok (pw 0%float (1 / of_nat 538)%num) /\
  (pw 0%float (1 / of_nat 538)%num = 0%float ->
   get_tai (Binary64.calculator pw) (repeated "ata" 538) = Ok 0%float).
Proof.
  split.
  { assert (Hret : (update Binary64.s_half Binary64.one_each blank).1 = Ok ())
      by (vm_compute; reflexivity).
    unfold init, Binary64.calculator.
    by destruct (update _ _ _) as [[[]|e] st]. }
  assert (Htai : get_tai (Binary64.calculator pw) (repeated "ata" 538)
                 = Ok (pw 0%float (1 / of_nat 538)%num))
    by (vm_compute; reflexivity).
  split; [vm_compute; reflexivity|].
  split; [vm_compute; reflexivity|].
  split; [vm_compute; reflexivity|].
  split; [vm_compute; reflexivity|].
  split; [exact Htai|].
  intros Hpw. rewrite Htai. f_equal. exact Hpw.
Qed.

End Underflow.

(** ** The theorems on the example *)

Local Existing Instance Exact.rational.
Local Abbreviation calc := (Exact.calculator Exact.power).

Lemma get_tai_geo_mean_example :
  get_tai calc "ATGuuuGCATAA" =
  Ok (geometric_mean (w_dict calc !!! "ttt") [w_dict calc !!! "gca"]).
Proof.
  apply (proj2 (get_tai_geo_mean calc "ATGuuuGCATAA")).
  replace (sequence_to_codons "ATGuuuGCATAA") with ["ttt"; "gca"]
    by (vm_compute; reflexivity).
  constructor; [|constructor; [|constructor]];
    apply lookup_lookup_total, (bool_decide_unpack _); vm_compute; reflexivity.
Defined.

Lemma get_tai_empty_witness :
  get_sequence_codons "ATGTAA" = [] /\
  get_tai calc "ATGTAA" = Err TypeError.
Proof.
  assert (Hnil : get_sequence_codons "ATGTAA" = []) by (vm_compute; reflexivity).
  split; [exact Hnil|]. exact (get_tai_empty calc "ATGTAA" Hnil).
Defined.

(** C9 as stated fails: a sequence of start and stop codons makes
    [get_tai] raise [TypeError], the error of [reduce], and so does the
    empty sequence; the code has no exception of its own for it. *)
Lemma get_tai_start_stop_only :
  get_tai calc "atgtaatgatag" = Err TypeError /\
  get_tai calc "" = Err TypeError.
Proof. split; vm_compute; reflexivity. Qed.

Lemma w_dict_after_witness : fresh Exact.s_half calc.
Proof.
  apply (proj1 (w_dict_after Exact.s_half) Exact.one_each calc).
  apply calculator_init.
Defined.

(** C2 as stated fails after [add_tRNA_genes]: the instance keeps the
    [w_dict] of the old tGCN table. *)
Lemma stale_w_dict :
  let self' := (add_tRNA_genes Exact.two_aaa Exact.half calc).2 in
  (add_tRNA_genes Exact.two_aaa Exact.half calc).1 = Ok () /\
  set_w_dict Exact.s_half self' <> Ok (w_dict self').
Proof. exact (stale_any_power Exact.power). Qed.

Lemma raised_state_witness :
  run Exact.s_half (AddGenes Exact.two_aaa_xyz Exact.half) calc =
    (Err KeyError,
     (run Exact.s_half (AddGenes Exact.two_aaa_xyz Exact.half) calc).2) /\
  w_dict (run Exact.s_half (AddGenes Exact.two_aaa_xyz Exact.half) calc).2
    = w_dict calc /\
  KeyError = KeyError /\
  exists applied bad rest,
    Exact.two_aaa_xyz = (applied ++ bad :: rest)%list /\
    add_tRNA_genes applied Exact.half calc =
      (Ok (),
       (run Exact.s_half (AddGenes Exact.two_aaa_xyz Exact.half) calc).2) /\
    tGCN_dict (run Exact.s_half (AddGenes Exact.two_aaa_xyz Exact.half) calc).2
      !! normalize bad.1 = None.
Proof.
  assert (Hfst : (run Exact.s_half (AddGenes Exact.two_aaa_xyz Exact.half)
                      calc).1 = Err KeyError)
    by (vm_compute; reflexivity).
  pose proof (pair_fst _ _ Hfst) as Hrun.
  split; [exact Hrun|].
  exact (raised_state Exact.s_half (AddGenes Exact.two_aaa_xyz Exact.half)
           calc KeyError _ Hrun).
Defined.

(** C3 as stated fails: the call that raises at xyz has already changed
    the count of aaa from 1 to 2. *)
Lemma partial_mutation :
  let self' :=
    (add_tRNA_genes Exact.two_aaa_xyz Exact.half calc).2 in
  (add_tRNA_genes Exact.two_aaa_xyz Exact.half calc).1
    = Err KeyError /\
  this <$> tGCN_dict calc !! "aaa" = Some 1%Q /\
  this <$> tGCN_dict self' !! "aaa" = Some 2%Q.
Proof. exact (partial_any_power Exact.power). Qed.

(** The index of a sequence with the codons ata and ttt, of weights 1/4
    and 1: the square root of 1/4. *)
Lemma calculator_get_tai :
  this <$> w_dict calc !! "ata" = Some (1 # 4)%Q /\
  this <$> w_dict calc !! "ttt" = Some 1%Q /\
  match get_tai calc "atattt" with
  | Ok tai => this tai = (1 # 2)%Q
  | Err _ => False
  end /\
  this (Exact.power (Q2Qc 36) Exact.half) = 6%Q.
Proof. vm_compute. repeat split. Qed.



Lemma get_W_cases_witness :
  complete calc /\
  exists (acs : list string) (sns : list (Qc * Qc)),
    anticodons "ttt" = Ok acs /\ length acs = 4%nat /\
    Forall2 (fun a sn => get_s Exact.s_half "ttt" a = Ok sn.1 /\
                         tGCN_dict calc !! a = Some sn.2) acs sns /\
    get_W Exact.s_half calc "ttt" =
      Ok (Some (foldl (fun W sn => (W + (1 - sn.1) * sn.2)%num) 0%num sns)).
Proof.
  split; [exact (calculator_complete Exact.power)|].
  apply (proj2 (proj2 (get_W_cases Exact.s_half calc)) "ttt").
  - apply (bool_decide_unpack _). vm_compute. reflexivity.
  - apply (bool_decide_unpack _). vm_compute. reflexivity.
  - discriminate.
  - apply calculator_complete.
Defined.

(** The example of C7: 2 copies at expression level 1/2 add exactly 1 to
    the count of aaa and change no other count. *)
Lemma add_tRNA_genes_adds_witness :
  let self' := (add_tRNA_genes Exact.two_aaa Exact.half calc).2 in
  (add_tRNA_genes Exact.two_aaa Exact.half calc).1 = Ok () /\
  (Exact.two * Exact.half)%Qc = Q2Qc 1 /\
  (exists n, tGCN_dict calc !! "aaa" = Some n /\
             tGCN_dict self' !! "aaa" = Some (n + Q2Qc 1)%Qc) /\
  (forall a, a <> "aaa" -> tGCN_dict self' !! a = tGCN_dict calc !! a).
Proof.
  intros self'.
  assert (Hkeys : normal_keys Exact.two_aaa = ["aaa"])
    by (vm_compute; reflexivity).
  assert (Haaa : "aaa" ∈ codons)
    by (apply (bool_decide_unpack _); vm_compute; reflexivity).
  assert (Hhalf : (Exact.two * Exact.half)%Qc = Q2Qc 1)
    by (apply Qc_is_canon; reflexivity).
  destruct (add_tRNA_genes_adds Exact.two_aaa Exact.half calc)
    as (st & Hrun & _ & Hother & _ & Hone).
  { intros item ->%list_elem_of_singleton.
    exact (calculator_complete Exact.power "aaa" Haaa). }
  assert (Hst : self' = st) by (unfold self'; by rewrite Hrun).
  split; [by rewrite Hrun|]. split; [exact Hhalf|]. split.
  - destruct (calculator_complete Exact.power "aaa" Haaa) as [n Hn].
    exists n. split; [exact Hn|]. rewrite Hst.
    exact (Hone "aaa" Exact.two n eq_refl Hhalf Hn).
  - intros a Ha. rewrite Hst. apply Hother. rewrite Hkeys.
    intros Hin%list_elem_of_singleton. exact (Ha Hin).
Defined.

Lemma tGCN_after_update_witness :
  tGCN_dict (update Exact.s_half [] calc).2 !! "aaa"
    = Some (Q2Qc 0) /\
  tGCN_dict (update Exact.s_half Exact.two_aaa calc).2 !! "ttt"
    = Some (Q2Qc 0).
Proof.
  split.
  - pose proof (tGCN_after_update Exact.s_half [] calc) as Hall.
    cbv zeta in Hall. destruct Hall as (_ & _ & _ & _ & _ & _ & Hempty).
    apply Hempty; [reflexivity|].
    apply (bool_decide_unpack _). vm_compute. reflexivity.
  - pose proof (tGCN_after_update Exact.s_half Exact.two_aaa calc)
      as Hall.
    cbv zeta in Hall. destruct Hall as (_ & _ & Hzero & _).
    apply Hzero; apply (bool_decide_unpack _); vm_compute; reflexivity.
Defined.

Lemma add_tRNA_genes_unknown_key_witness :
  init Exact.s_half Exact.one_each = Ok calc /\
  Forall (fun k => k ∈ codons) (normal_keys Exact.one_each) /\
  (normalize "xyz" ∉ codons) /\
  (add_tRNA_genes Exact.two_aaa_xyz Exact.half calc).1 = Err KeyError.
Proof.
  assert (Hkeys : Forall (fun k => k ∈ codons) (normal_keys Exact.one_each))
    by (apply (bool_decide_unpack _); vm_compute; reflexivity).
  assert (Hxyz : normalize "xyz" ∉ codons)
    by (apply (bool_decide_unpack _); vm_compute; reflexivity).
  assert (Hin : ("xyz", Q2Qc 1) ∈ Exact.two_aaa_xyz)
    by (apply (bool_decide_unpack _); vm_compute; reflexivity).
  split; [exact (calculator_init Exact.power)|].
  split; [exact Hkeys|]. split; [exact Hxyz|].
  exact (add_tRNA_genes_unknown_key Exact.s_half Exact.one_each calc
           Exact.two_aaa_xyz Exact.half ("xyz", Q2Qc 1)
           (calculator_init Exact.power) Hkeys Hin Hxyz).
Defined.

(** ** The further properties on examples *)

Lemma rev_compl_uracil_round_trip_witness :
  valid_sequence "AUGc" /\
  exists y,
    rev_compl "AUGc" false = Ok y /\
    rev_compl "AUGc" true = Ok (Str.replace "t" "u" y) /\
    valid_sequence (Str.replace "t" "u" y) /\
    rev_compl (Str.replace "t" "u" y) false = Ok "atgc" /\
    rev_compl (Str.replace "t" "u" y) true = Ok "augc".
Proof.
  assert (Hv : valid_sequence "AUGc").
  { unfold valid_sequence, valid_base.
    apply (bool_decide_unpack _). vm_compute. reflexivity. }
  split; [exact Hv|]. exact (rev_compl_uracil_round_trip "AUGc" Hv).
Defined.

Lemma anticodons_codon_witness :
  "gca" ∈ codons /\
  exists acs,
    anticodons "gca" = Ok acs /\ length acs = 4%nat /\ NoDup acs /\
    Forall (fun a => a ∈ codons /\
                     rev_compl (Str.slice 1 2 a) false = Ok "gc") acs /\
    exists r, rev_compl "gca" false = Ok r /\ r ∈ acs.
Proof.
  assert (Hin : "gca" ∈ codons)
    by (apply (bool_decide_unpack _); vm_compute; reflexivity).
  split; [exact Hin|]. exact (anticodons_codon "gca" Hin).
Defined.

Lemma get_sequence_codons_app_witness :
  get_sequence_codons (String.append "atgttt" "GCUtaaccgt")
  = (get_sequence_codons "atgttt" ++ get_sequence_codons "GCUtaaccgt")%list /\
  get_sequence_codons (String.append "atgttt" "GCUtaaccgt") = ["ttt"; "gct"; "ccg"].
Proof.
  split; [|vm_compute; reflexivity].
  exact (proj1 (get_sequence_codons_app "atgttt" "GCUtaaccgt" eq_refl)).
Defined.

Lemma spelling_invariance_witness :
  get_sequence_codons (Str.lower "AUGGCU") = get_sequence_codons "AUGGCU" /\
  forall self : TAI Qc,
    get_tai self (Str.lower "AUGGCU") = get_tai self "AUGGCU".
Proof.
  apply (spelling_invariance "AUGGCU" (Str.lower "AUGGCU")).
  apply list_elem_of_here.
Defined.

Lemma get_s_outcome_witness :
  "ata" ∈ codons /\
  exists acs third_base,
    anticodons "ata" = Ok acs /\ Str.index "ata" 2 = Ok third_base /\
    ("cat" ∉ acs -> get_s Exact.s_half "ata" "cat" = Err ValueError) /\
    ("cat" ∈ acs ->
     exists first_base s,
       Str.index "cat" 0 = Ok first_base /\
       get_s Exact.s_half "ata" "cat" = Ok s /\
       s_dict Exact.s_half !!
         String third_base
           (String (if decide (("ata", "cat") = ("ata", "cat"))
                    then "l"%char
                    else if decide (first_base = "a"%char) then "i"%char
                         else first_base)
                   EmptyString) = Some s).
Proof.
  assert (Hin : "ata" ∈ codons)
    by (apply (bool_decide_unpack _); vm_compute; reflexivity).
  split; [exact Hin|]. exact (get_s_outcome Exact.s_half "ata" "cat" Hin).
Defined.

Lemma get_W_frame_witness :
  get_W Exact.s_half calc "ccc"
  = get_W Exact.s_half (add_tRNA_genes Exact.two_aaa Exact.half calc).2 "ccc".
Proof.
  apply (get_W_frame Exact.s_half calc
           (add_tRNA_genes Exact.two_aaa Exact.half calc).2
           "ccc" ["tgg"; "cgg"; "agg"; "ggg"]).
  - vm_compute. reflexivity.
  - apply Forall_cons_2; [vm_compute; reflexivity|].
    apply Forall_cons_2; [vm_compute; reflexivity|].
    apply Forall_cons_2; [vm_compute; reflexivity|].
    apply Forall_cons_2; [vm_compute; reflexivity|].
    apply Forall_nil_2.
Defined.

Lemma reachable_tables_witness :
  (run Exact.s_half (AddGenes Exact.two_aaa_xyz Exact.half) calc).1
    = Err KeyError /\
  (forall a,
      a ∈ codons ->
      is_Some
        (tGCN_dict
           (run Exact.s_half (AddGenes Exact.two_aaa_xyz Exact.half) calc).2
           !! a)) /\
  (forall c,
      is_Some
        (w_dict
           (run Exact.s_half (AddGenes Exact.two_aaa_xyz Exact.half) calc).2
           !! c)
      <-> c ∈ codons /\ c ∉ start_stop) /\
  length (filter (fun c => c ∉ start_stop) codons) = 60%nat.
Proof.
  split; [vm_compute; reflexivity|].
  exact (reachable_tables Exact.s_half _
           (reachable_run Exact.s_half
              (AddGenes Exact.two_aaa_xyz Exact.half) calc
              (reachable_init Exact.s_half Exact.one_each calc
                 (calculator_init Exact.power)))).
Defined.

Lemma get_tai_outcome_witness :
  get_tai calc "ttngca" = Err KeyError /\
  exists tai, get_tai calc "ATGuuuGCATAA" = Ok tai.
Proof.
  assert (Hr : reachable Exact.s_half calc).
  { exact (reachable_init Exact.s_half Exact.one_each calc
             (calculator_init Exact.power)). }
  destruct (get_tai_outcome Exact.s_half calc "ttngca" Hr) as (Hkey & _ & _).
  destruct (get_tai_outcome Exact.s_half calc "ATGuuuGCATAA" Hr)
    as (_ & _ & Hret).
  split.
  - apply Hkey.
    replace (get_sequence_codons "ttngca") with ["ttn"; "gca"]
      by (vm_compute; reflexivity).
    apply Exists_cons_hd. apply (bool_decide_unpack _).
    vm_compute. reflexivity.
  - apply Hret.
    + unfold valid_sequence, valid_base.
      apply (bool_decide_unpack _). vm_compute. reflexivity.
    + replace (get_sequence_codons "ATGuuuGCATAA") with ["ttt"; "gca"]
        by (vm_compute; reflexivity).
      discriminate.
Defined.

Lemma set_w_dict_outcome_witness :
  complete calc /\
  exists M,
    py_max (raw_weights Exact.s_half calc).*2 = Ok M /\
    (is_zero M = true ->
     set_w_dict Exact.s_half calc = Err ZeroDivisionError) /\
    (is_zero M = false ->
     (Forall (fun cW => is_zero (cW.2 / M)%num = true)
             (raw_weights Exact.s_half calc) ->
      set_w_dict Exact.s_half calc = Err TypeError) /\
     (Exists (fun cW => is_zero (cW.2 / M)%num = false)
             (raw_weights Exact.s_half calc) ->
      exists w, set_w_dict Exact.s_half calc = Ok w)).
Proof.
  split; [exact (calculator_complete Exact.power)|].
  exact (set_w_dict_outcome Exact.s_half calc
           (calculator_complete Exact.power)).
Defined.

(** No tRNA gene at all, and an s-value file without a row for al: every
    raw weight is 0. *)
Lemma set_w_dict_zero_division_witness :
  let self := {| tGCN_dict := set_tGCN_dict (R := Qc) []; w_dict := ∅ |} in
  complete self /\
  Forall (fun cW => (0 >? cW.2)%num = false)
         (raw_weights Exact.s_no_al self) /\
  Forall (fun cW => is_zero cW.2 = true) (raw_weights Exact.s_no_al self) /\
  set_w_dict Exact.s_no_al self = Err ZeroDivisionError.
Proof.
  intros self.
  assert (Hc : complete self).
  { intros a Ha. unfold self. cbn [tGCN_dict].
    by apply set_tGCN_dict_codon. }
  assert (Hnonneg : Forall (fun cW => (0 >? cW.2)%num = false)
                           (raw_weights Exact.s_no_al self))
    by (apply (bool_decide_unpack _); vm_compute; reflexivity).
  assert (Hzero : Forall (fun cW => is_zero cW.2 = true)
                         (raw_weights Exact.s_no_al self))
    by (apply (bool_decide_unpack _); vm_compute; reflexivity).
  split; [exact Hc|]. split; [exact Hnonneg|]. split; [exact Hzero|].
  apply (@set_w_dict_zero_division Qc Exact.rational
           (exact_laws Exact.power) Exact.s_no_al self Hc Hnonneg).
  eapply Forall_impl; [exact Hzero|].
  intros cW Hz.
  exact (proj1 (@is_zero_true Qc Exact.rational (exact_laws Exact.power)
                  cW.2) Hz).
Defined.

Lemma get_naive_s_spec_witness :
  get_naive_s Exact.half calc (Str.slice 2 1 "gca") (Str.slice 0 1 "tgc")
    = Ok (Q2Qc 0) /\
  get_naive_s Exact.half calc (Str.slice 2 1 "gca") (Str.slice 0 1 "cgc")
    = Ok Exact.half.
Proof.
  assert (Hin : "gca" ∈ codons)
    by (apply (bool_decide_unpack _); vm_compute; reflexivity).
  assert (Hacs : anticodons "gca" = Ok ["tgc"; "cgc"; "agc"; "ggc"])
    by (vm_compute; reflexivity).
  split.
  - rewrite (proj2 (get_naive_s_spec Exact.half calc) "gca" _ "tgc" Hin Hacs
               (list_elem_of_here _ _)).
    vm_compute. reflexivity.
  - rewrite (proj2 (get_naive_s_spec Exact.half calc) "gca" _ "cgc" Hin Hacs
               (list_elem_of_further _ _ _ (list_elem_of_here _ _))).
    vm_compute. reflexivity.
Defined.
